(** * Double-buffered LZ4 frame compression on an Alveo card

    A shallow embedding of the host code of the notebook
    [data_compression/overlapping-communication-compute.ipynb]:
    [write_uncompressed], [read_compressed], the sequential reference
    [compress_hw] and the ping-pong pipeline [compress_overlapped].

    The accelerator ([xilLz4Compress]) is an external collaborator: it is a
    parameter of the development, constrained where needed by a per-block
    contract.  Python integers are [Z]; the entries of a ['u4'] array are
    stored modulo [2^32]; byte strings are [list byte]. *)

From Stdlib Require Import ZArith List Lia Bool.
From Stdlib Require Import Strings.Byte.
Import ListNotations.
Local Open Scope Z_scope.

Set Implicit Arguments.

(** ** Errors and results *)

Inductive error : Type :=
| IndexError      (* an integer index outside the array *)
| ValueError      (* [reshape] on an array of the wrong size *)
| OutOfFuel.      (* the loop bound of the model was too small *)

Inductive result (A : Type) : Type :=
| Ok (a : A)
| Err (e : error).

Arguments Ok {A} a.
Arguments Err {A} e.

Definition bind {A B : Type} (r : result A) (k : A -> result B) : result B :=
  match r with
  | Ok a => k a
  | Err e => Err e
  end.

Notation "x <- c ;; k" := (bind c (fun x => k))
  (at level 61, c at next level, right associativity).
Notation "' p <- c ;; k" := (bind c (fun x => match x with p => k end))
  (at level 61, p pattern, c at next level, right associativity).

(** ** Python sequences *)

Definition len {A : Type} (l : list A) : Z := Z.of_nat (length l).

(** Bound of a slice with step 1, as [slice.indices] computes it: a negative
    bound counts from the end, and the result is clamped to [0, n]. *)
Definition slice_bound (n i : Z) : Z :=
  if i <? 0 then Z.max 0 (i + n) else Z.min i n.

(** [l[lo:hi]] *)
Definition getslice {A : Type} (l : list A) (lo hi : Z) : list A :=
  let n := len l in
  let a := slice_bound n lo in
  let b := slice_bound n hi in
  firstn (Z.to_nat (b - a)) (skipn (Z.to_nat a) l).

(** [l[lo:]] *)
Definition getslice_from {A : Type} (l : list A) (lo : Z) : list A :=
  getslice l lo (len l).

(** The value kept by a ['u4'] array entry. *)
Definition u4 (v : Z) : Z := v mod 2 ^ 32.

(** Overwrite with [v] the entries whose position lies in [lo, hi); [i] is the
    position of the head of [l]. *)
Fixpoint fill_range (l : list Z) (i lo hi v : Z) : list Z :=
  match l with
  | [] => []
  | x :: r =>
      (if (lo <=? i) && (i <? hi) then v else x) :: fill_range r (i + 1) lo hi v
  end.

(** [sizes[lo:hi] = v] on a ['u4'] array (the scalar is broadcast). *)
Definition setslice (sizes : list Z) (lo hi v : Z) : list Z :=
  let n := len sizes in
  fill_range sizes 0 (slice_bound n lo) (slice_bound n hi) (u4 v).

(** [sizes[:] = v] *)
Definition setall (sizes : list Z) (v : Z) : list Z :=
  setslice sizes 0 (len sizes) v.

(** [sizes[i] = v]: a negative index counts from the end; an index outside
    the array raises. *)
Definition setitem (sizes : list Z) (i v : Z) : result (list Z) :=
  let n := len sizes in
  let j := if i <? 0 then i + n else i in
  if (0 <=? j) && (j <? n) then Ok (fill_range sizes 0 j (j + 1) (u4 v))
  else Err IndexError.

(** ** Bytes *)

Definition byte_of_Z (z : Z) : byte :=
  match Byte.of_N (Z.to_N (z mod 256)) with
  | Some b => b
  | None => x00
  end.

Definition Z_of_byte (b : byte) : Z := Z.of_N (Byte.to_N b).

(** [struct.pack('<I', size)] for [size] read from a ['u4'] array. *)
Definition pack_I (size : Z) : list byte :=
  [ byte_of_Z size; byte_of_Z (size / 2 ^ 8);
    byte_of_Z (size / 2 ^ 16); byte_of_Z (size / 2 ^ 24) ].

(** [struct.unpack('<I', bs)], used to read a length prefix back. *)
Definition unpack_I (bs : list byte) : Z :=
  match bs with
  | [b0; b1; b2; b3] =>
      Z_of_byte b0 + 2 ^ 8 * Z_of_byte b1 + 2 ^ 16 * Z_of_byte b2
      + 2 ^ 24 * Z_of_byte b3
  | _ => 0
  end.

Definition LZ4_MAGIC : list byte := [x04; x22; x4d; x18].
Definition LZ4_HEADER : list byte := LZ4_MAGIC ++ [x60; x60; x51].
Definition END_MARK : list byte := [x00; x00; x00; x00].

(** ** One buffer set *)

(** The four device-visible arrays of one slot.  [in_buffers] is kept in its
    flat [(BRICK_SIZE,)] shape, [out_buffers] as its 8 rows.  Every host write
    is followed by [sync_to_device] and every host read is preceded by
    [sync_from_device] on the region read, so a single copy of each array is
    kept. *)
Record slot : Type := Slot {
  in_buffers : list byte;
  out_buffers : list (list byte);
  compressed_size : list Z;
  uncompressed_size : list Z
}.

(** The accelerator: from the slot it is started on, the block size in KiB
    and the brick size, the new contents of [out_buffers] and
    [compressed_size]. *)
Definition accelerator : Type := slot -> Z -> Z -> list (list byte) * list Z.

(** What the host does, in program order. *)
Inductive event : Type :=
| EvPack (s : Z) (total_size blocks : Z) (sizes : list Z)
    (* write_uncompressed on slot [s] returned (total_size, blocks) and left
       [sizes] in the slot's uncompressed_size *)
| EvCall (s : Z) (brick_size : Z)      (* compress_kernel.call *)
| EvStart (s : Z) (brick_size : Z)     (* compress_kernel.start *)
| EvWait (s : Z)                       (* wh.wait() *)
| EvUnpack (s : Z) (blocks : Z).       (* read_compressed on slot [s] *)

(** The notebook sets [BLOCK_SIZE = 1024*1024]; the functions below take the
    block size as a parameter, and the theorems hold for every block size
    that a ['u4'] entry can hold. *)
Definition NOTEBOOK_BLOCK_SIZE : Z := 1024 * 1024.

Section Compressor.

Variable BLOCK_SIZE : Z.

Definition BRICK_SIZE : Z := 8 * BLOCK_SIZE.

(** *** write_uncompressed *)

Definition write_uncompressed (data : list byte) (buffers : list byte)
    (sizes : list Z) : result (list byte * list Z * Z * Z) :=
  let total_size := Z.min (len data) BRICK_SIZE in
  (* buffers.reshape((BRICK_SIZE,))[0:total_size] = data[0:total_size] *)
  if negb (len buffers =? BRICK_SIZE) then Err ValueError else
  let buffers :=
    getslice data 0 total_size ++ getslice_from buffers total_size in
  if total_size =? BRICK_SIZE then
    let sizes := setall sizes BLOCK_SIZE in
    let blocks := 8 in
    Ok (buffers, sizes, total_size, blocks)
  else
    let left := total_size in
    let blocks := ((total_size - 1) / BLOCK_SIZE) + 1 in
    let sizes := setslice sizes 0 (blocks - 1) BLOCK_SIZE in
    sizes <- setitem sizes (blocks - 1) (total_size mod BLOCK_SIZE) ;;
    let sizes := setslice sizes blocks 8 0 in
    Ok (buffers, sizes, total_size, blocks).

(** *** read_compressed *)

(** The body of the [for size, buffer in zip(...)] loop, folded over the
    zipped pairs. *)
Fixpoint write_blocks (stream : list byte)
    (pairs : list (Z * list byte)) : list byte :=
  match pairs with
  | [] => stream
  | (size, buffer) :: rest =>
      let subbuf := getslice buffer 0 size in
      let stream := stream ++ pack_I size in
      let stream := stream ++ subbuf in
      write_blocks stream rest
  end.

Definition read_compressed (stream : list byte) (buffers : list (list byte))
    (sizes : list Z) (blocks : Z) : list byte :=
  write_blocks stream
    (combine (getslice sizes 0 blocks) (getslice buffers 0 blocks)).

(** *** The accelerator at work *)

Variable kernel : accelerator.

(** One run of the kernel on the slot [b]: it reads [in_buffers] and
    [uncompressed_size] and leaves its results in [out_buffers] and in the
    ['u4'] array [compressed_size]. *)
Definition run_kernel (b : slot) (brick_size : Z) : slot :=
  let '(out, sizes) := kernel b 1024 brick_size in
  Slot (in_buffers b) out (map u4 sizes) (uncompressed_size b).

(** The slot after [write_uncompressed] has filled its input arrays. *)
Definition with_input (b : slot) (buffers : list byte) (sizes : list Z)
    : slot :=
  Slot buffers (out_buffers b) (compressed_size b) sizes.

(** *** compress_hw *)

(** The buffers of the host ([mem]), the output stream and the events so
    far. *)
Record machine (M : Type) : Type := Machine {
  mem : M;
  stream : list byte;
  trace : list event
}.

(** The [while offset < len(view)] loop.  [fuel] bounds the number of
    iterations. *)
Fixpoint compress_hw_loop (fuel : nat) (view : list byte) (offset : Z)
    (m : machine slot) : result (machine slot) :=
  if offset <? len view then
    match fuel with
    | O => Err OutOfFuel
    | S fuel =>
        let b := mem m in
        '(buffers, sizes, brick_size, blocks) <-
          write_uncompressed (getslice_from view offset)
            (in_buffers b) (uncompressed_size b) ;;
        let b := with_input b buffers sizes in
        let tr := trace m ++ [EvPack 0 brick_size blocks sizes] in
        let b := run_kernel b brick_size in
        let tr := tr ++ [EvCall 0 brick_size] in
        let st :=
          read_compressed (stream m) (out_buffers b) (compressed_size b)
            blocks in
        let tr := tr ++ [EvUnpack 0 blocks] in
        let offset := offset + brick_size in
        compress_hw_loop fuel view offset (Machine b st tr)
    end
  else Ok m.

Definition compress_hw (raw_data : list byte) (buffers : slot)
    : result (machine slot) :=
  let view := raw_data in
  let offset := 0 in
  let st := LZ4_HEADER in
  m <- compress_hw_loop (S (length view)) view offset
         (Machine buffers st []) ;;
  let st := stream m ++ END_MARK in
  Ok (Machine (mem m) st (trace m)).

(** *** compress_overlapped *)

(** [arrays[active]] for the arrays with a leading dimension of size 2;
    [active] starts at 0 and is only changed by [active ^= 1]. *)
Definition get_slot (bs : slot * slot) (active : Z) : slot :=
  if active =? 0 then fst bs else snd bs.

Definition set_slot (bs : slot * slot) (active : Z) (b : slot) : slot * slot :=
  if active =? 0 then (b, snd bs) else (fst bs, b).

(** A wait handle: the slot the kernel was started on and the brick size it
    was given. *)
Definition handle : Type := (Z * Z)%type.

(** [compress_kernel.start(...)] returns at once and the accelerator works
    on the slot of the handle until [wh.wait()] returns.  When in between it
    writes its results is not known to the host: [eager] tells whether the
    results are in the slot as soon as the kernel is started, or only when
    the wait returns. *)
Variable eager : bool.

Definition start (bs : slot * slot) (wh : handle) : slot * slot :=
  if eager then
    set_slot bs (fst wh) (run_kernel (get_slot bs (fst wh)) (snd wh))
  else bs.

Definition wait (bs : slot * slot) (wh : handle) : slot * slot :=
  if eager then bs
  else set_slot bs (fst wh) (run_kernel (get_slot bs (fst wh)) (snd wh)).

(** The [while True] loop; it returns at [break] with the locals still
    needed and the handle not yet waited for. *)
Fixpoint compress_overlapped_loop (fuel : nat) (view : list byte)
    (active offset previous_blocks brick_size blocks : Z)
    (m : machine (slot * slot))
    : result (Z * Z * handle * machine (slot * slot)) :=
  match fuel with
  | O => Err OutOfFuel
  | S fuel =>
      let wh : handle := (active, brick_size) in
      let bs := start (mem m) wh in
      let tr := trace m ++ [EvStart active brick_size] in
      let active := Z.lxor active 1 in
      let offset := offset + brick_size in
      let '(st, tr) :=
        if negb (previous_blocks =? 0) then
          (read_compressed (stream m) (out_buffers (get_slot bs active))
             (compressed_size (get_slot bs active)) previous_blocks,
           tr ++ [EvUnpack active previous_blocks])
        else (stream m, tr) in
      let previous_blocks := blocks in
      if offset <? len view then
        '(buffers, sizes, brick_size, blocks) <-
          write_uncompressed (getslice_from view offset)
            (in_buffers (get_slot bs active))
            (uncompressed_size (get_slot bs active)) ;;
        let bs := set_slot bs active
                    (with_input (get_slot bs active) buffers sizes) in
        let tr := tr ++ [EvPack active brick_size blocks sizes] in
        let bs := wait bs wh in
        let tr := tr ++ [EvWait (fst wh)] in
        compress_overlapped_loop fuel view active offset previous_blocks
          brick_size blocks (Machine bs st tr)
      else
        Ok (active, previous_blocks, wh, Machine bs st tr)
  end.

Definition compress_overlapped (raw_data : list byte) (buffers : slot * slot)
    : result (machine (slot * slot)) :=
  let view := raw_data in
  let offset := 0 in
  let active := 0 in
  let previous_blocks := 0 in
  let st := LZ4_HEADER in
  '(inb, sizes, brick_size, blocks) <-
    write_uncompressed (getslice_from view offset)
      (in_buffers (get_slot buffers 0))
      (uncompressed_size (get_slot buffers 0)) ;;
  let bs := set_slot buffers 0 (with_input (get_slot buffers 0) inb sizes) in
  let tr := [EvPack 0 brick_size blocks sizes] in
  '(active, previous_blocks, wh, m) <-
    compress_overlapped_loop (S (length view)) view active offset
      previous_blocks brick_size blocks (Machine bs st tr) ;;
  let bs := wait (mem m) wh in
  let tr := trace m ++ [EvWait (fst wh)] in
  let active := Z.lxor active 1 in
  let st :=
    read_compressed (stream m) (out_buffers (get_slot bs active))
      (compressed_size (get_slot bs active)) previous_blocks in
  let tr := tr ++ [EvUnpack active previous_blocks] in
  let st := st ++ END_MARK in
  Ok (Machine bs st tr).

End Compressor.

(** ** The slot discipline *)

(** The slot an event is about, and the slot a host-side event works on. *)
Definition event_slot (e : event) : Z :=
  match e with
  | EvPack s _ _ _ | EvCall s _ | EvStart s _ | EvWait s | EvUnpack s _ => s
  end.

Definition host_slot (e : event) : option Z :=
  match e with
  | EvPack s _ _ _ | EvUnpack s _ => Some s
  | _ => None
  end.

(** The accelerator operations outstanding after the events [t]:
    submissions minus waits. *)
Fixpoint outstanding (t : list event) : Z :=
  match t with
  | [] => 0
  | EvStart _ _ :: t => outstanding t + 1
  | EvWait _ :: t => outstanding t - 1
  | _ :: t => outstanding t
  end.

(** The number of times the kernel is invoked, by [call] or by [start]. *)
Fixpoint submissions (t : list event) : nat :=
  match t with
  | [] => 0
  | (EvStart _ _ | EvCall _ _) :: t => S (submissions t)
  | _ :: t => submissions t
  end.

(** A monitor for the slot discipline.  Its state is the slot the
    accelerator is running on, if any.  It rejects an event on a slot other
    than 0 and 1, a second submission while one is outstanding, a wait that
    is not for the outstanding submission, and host work on the slot the
    accelerator owns. *)
Definition monitor_step (inflight : option Z) (e : event)
    : option (option Z) :=
  if negb ((event_slot e =? 0) || (event_slot e =? 1)) then None else
  match e, inflight with
  | EvStart s _, None => Some (Some s)
  | EvStart _ _, Some _ => None
  | EvCall _ _, None => Some None
  | EvCall _ _, Some _ => None
  | EvWait s, Some s' => if s' =? s then Some None else None
  | EvWait _, None => None
  | (EvPack s _ _ _ | EvUnpack s _), Some s' =>
      if s' =? s then None else Some inflight
  | (EvPack _ _ _ _ | EvUnpack _ _), None => Some inflight
  end.

Fixpoint monitor (inflight : option Z) (t : list event)
    : option (option Z) :=
  match t with
  | [] => Some inflight
  | e :: t =>
      match monitor_step inflight e with
      | Some inflight => monitor inflight t
      | None => None
      end
  end.

(** The operations outstanding in a state of the monitor. *)
Definition inflight_count (q : option Z) : Z :=
  match q with
  | Some _ => 1
  | None => 0
  end.

(** The slot discipline, stated on the events themselves. *)

(** Host work that follows a submission on slot [s] before any wait on [s]
    is on the other slot. *)
Definition ownership_respected (t : list event) : Prop :=
  forall t1 s b t2 e t3 s',
    t = t1 ++ EvStart s b :: t2 ++ e :: t3 ->
    ~ In (EvWait s) t2 ->
    host_slot e = Some s' ->
    s' = Z.lxor s 1.

(** Between two submissions the wait for the first one returns. *)
Definition submissions_sequenced (t : list event) : Prop :=
  forall t1 s b t2 s' b' t3,
    t = t1 ++ EvStart s b :: t2 ++ EvStart s' b' :: t3 ->
    In (EvWait s) t2.

(** At every point of the run at most one operation is outstanding. *)
Definition one_outstanding (t : list event) : Prop :=
  forall p q, t = p ++ q -> 0 <= outstanding p <= 1.

(** ** Bricks, payloads and the contract of the accelerator *)

(** One block record of the frame: the length of the payload, then the
    payload. *)
Definition record (payload : list byte) : list byte :=
  pack_I (len payload) ++ payload.

Section Specification.

Variable BLOCK_SIZE : Z.
Variable codec : list byte -> list byte.

(** The number of bytes [write_uncompressed] takes from a window, the block
    count it returns for a brick of [total] bytes, and the sizes it leaves
    behind. *)
Definition brick_total (window : list byte) : Z :=
  Z.min (len window) (BRICK_SIZE BLOCK_SIZE).

Definition brick_blocks (total : Z) : Z :=
  if total =? BRICK_SIZE BLOCK_SIZE then 8 else (total - 1) / BLOCK_SIZE + 1.

Definition brick_sizes (total : Z) : list Z :=
  if total =? BRICK_SIZE BLOCK_SIZE then repeat BLOCK_SIZE 8
  else
    let blocks := (total - 1) / BLOCK_SIZE + 1 in
    map (fun i : nat =>
           if Z.of_nat i <? blocks - 1 then BLOCK_SIZE
           else if Z.of_nat i =? blocks - 1 then total mod BLOCK_SIZE
           else 0)
        (seq 0 8).

(** The bytes of block [i] that the recorded size covers. *)
Definition block_input (window : list byte) (i : nat) : list byte :=
  firstn (Z.to_nat (nth i (brick_sizes (brick_total window)) 0))
    (skipn (Z.to_nat (Z.of_nat i * BLOCK_SIZE)) window).

(** The payloads of the valid blocks of the brick at the head of a window. *)
Definition brick_payloads (window : list byte) : list (list byte) :=
  map (fun i => codec (block_input window i))
    (seq 0 (Z.to_nat (brick_blocks (brick_total window)))).

(** The input in bricks of [BRICK_SIZE] bytes, the last one shorter. *)
Fixpoint bricks (fuel : nat) (view : list byte) : list (list byte) :=
  match fuel with
  | O => []
  | S fuel =>
      match view with
      | [] => []
      | _ :: _ =>
          firstn (Z.to_nat (BRICK_SIZE BLOCK_SIZE)) view
          :: bricks fuel (skipn (Z.to_nat (BRICK_SIZE BLOCK_SIZE)) view)
      end
  end.

Definition all_bricks (view : list byte) : list (list byte) :=
  bricks (length view) view.

(** The arrays [write_uncompressed] needs in shape. *)
Definition slot_wf (b : slot) : Prop :=
  len (in_buffers b) = BRICK_SIZE BLOCK_SIZE
  /\ length (uncompressed_size b) = 8%nat.

(** Row [i] of the flat input array. *)
Definition in_row (buffers : list byte) (i : nat) : list byte :=
  firstn (Z.to_nat BLOCK_SIZE)
    (skipn (Z.to_nat (Z.of_nat i * BLOCK_SIZE)) buffers).

(** The bytes of block [i] the accelerator is told to compress. *)
Definition in_block (b : slot) (i : nat) : list byte :=
  firstn (Z.to_nat (nth i (uncompressed_size b) 0)) (in_row (in_buffers b) i).

(** Slot [b] holds the brick at the head of [window]. *)
Definition packed (b : slot) (window : list byte) : Prop :=
  forall i : nat,
    Z.of_nat i < brick_blocks (brick_total window) ->
    in_block b i = block_input window i.

(** [codec] is what the accelerator computes for one block.  For each block
    that lies inside the brick the kernel compresses the first
    [uncompressed_size[i]] bytes of row [i], leaves the payload at the start
    of output row [i] (it fits the row) and its length in
    [compressed_size[i]]; the two output arrays keep their 8 entries. *)
Definition accel_contract (kernel : accelerator) : Prop :=
  forall (b : slot) (brick_size : Z),
    length (fst (kernel b 1024 brick_size)) = 8%nat
    /\ length (snd (kernel b 1024 brick_size)) = 8%nat
    /\ forall i : nat,
         (i < 8)%nat -> Z.of_nat i * BLOCK_SIZE < brick_size ->
         let c := codec (in_block b i) in
         len c <= BLOCK_SIZE
         /\ nth i (snd (kernel b 1024 brick_size)) 0 = len c
         /\ firstn (length c) (nth i (fst (kernel b 1024 brick_size)) []) = c.

(** An accelerator that applies [codec] to each of the 8 blocks. *)
Definition block_kernel : accelerator :=
  fun b _ _ =>
    let cs := map (fun i => codec (in_block b i)) (seq 0 8) in
    (cs, map (fun c => len c) cs).

End Specification.

(** A codec that stores a block as it is. *)
Definition stored (block : list byte) : list byte := block.

(** Buffers filled with zeros. *)
Definition zero_slot (BLOCK_SIZE : Z) : slot :=
  Slot (repeat x00 (Z.to_nat (8 * BLOCK_SIZE)))
       (repeat (repeat x00 (Z.to_nat BLOCK_SIZE)) 8)
       (repeat 0 8) (repeat 0 8).

(** ** Schedules of whole runs *)

(** The brick sizes given to the kernel, the slots it is started on and the
    block counts unpacked, in program order. *)
Definition kernel_sizes (t : list event) : list Z :=
  flat_map (fun e => match e with
                     | EvCall _ n | EvStart _ n => [n]
                     | _ => []
                     end) t.

Definition start_slots (t : list event) : list Z :=
  flat_map (fun e => match e with
                     | EvStart s _ => [s]
                     | _ => []
                     end) t.

Definition unpacked_blocks (t : list event) : list Z :=
  flat_map (fun e => match e with
                     | EvUnpack _ n => [n]
                     | _ => []
                     end) t.

(** The slots 0, 1, 0, 1, ... from [a] on. *)
Fixpoint alternate (a : Z) (n : nat) : list Z :=
  match n with
  | O => []
  | S n => a :: alternate (Z.lxor a 1) n
  end.

Section Schedule.

Variable BLOCK_SIZE : Z.

(** What [compress_hw] does for one brick of [total] bytes. *)
Definition brick_events (total : Z) : list event :=
  [ EvPack 0 total (brick_blocks BLOCK_SIZE total)
      (brick_sizes BLOCK_SIZE total);
    EvCall 0 total;
    EvUnpack 0 (brick_blocks BLOCK_SIZE total) ].

(** What the loop of [compress_overlapped] does from the start of the brick
    of [current] bytes held by slot [active]: the brick before it had
    [previous_blocks] blocks, and the bricks after it have the sizes
    [rest]. *)
Fixpoint pipeline_events (active previous_blocks current : Z)
    (rest : list Z) : list event :=
  EvStart active current
  :: (if previous_blocks =? 0 then []
      else [EvUnpack (Z.lxor active 1) previous_blocks])
  ++ match rest with
     | [] =>
         [ EvWait active; EvUnpack active (brick_blocks BLOCK_SIZE current) ]
     | next :: rest =>
         EvPack (Z.lxor active 1) next (brick_blocks BLOCK_SIZE next)
           (brick_sizes BLOCK_SIZE next)
         :: EvWait active
         :: pipeline_events (Z.lxor active 1)
              (brick_blocks BLOCK_SIZE current) next rest
     end.

(** The bytes of the valid blocks of the brick at the head of a window, as
    the recorded sizes give them to the accelerator. *)
Definition brick_inputs (window : list byte) : list (list byte) :=
  map (block_input BLOCK_SIZE window)
    (seq 0 (Z.to_nat (brick_blocks BLOCK_SIZE
                        (brick_total BLOCK_SIZE window)))).

(** The bytes at the end of an input of [n] bytes that no block size
    covers: the last block, when the input ends on a block boundary inside
    a brick. *)
Definition lost_bytes (n : Z) : Z :=
  if (n mod BLOCK_SIZE =? 0) && negb (n mod BRICK_SIZE BLOCK_SIZE =? 0)
  then BLOCK_SIZE else 0.

End Schedule.

(** ** Reading a frame back *)

(** Every block but possibly the last holds at least one byte. *)
Fixpoint nonempty_but_last (xs : list (list byte)) : Prop :=
  match xs with
  | [] => True
  | [_] => True
  | x :: xs => x <> [] /\ nonempty_but_last xs
  end.

(** A reader for the frame as the notebook describes it: the header, then
    blocks with their size header, up to the empty block that marks the
    end.  [None] when the bytes do not have that form. *)
Fixpoint read_records (fuel : nat) (bs : list byte)
    : option (list (list byte)) :=
  match fuel with
  | O => None
  | S fuel =>
      if (length bs <? 4)%nat then None
      else
        let size := unpack_I (firstn 4 bs) in
        let rest := skipn 4 bs in
        if size =? 0 then Some []
        else if len rest <? size then None
        else
          match read_records fuel (skipn (Z.to_nat size) rest) with
          | Some payloads => Some (firstn (Z.to_nat size) rest :: payloads)
          | None => None
          end
  end.

Definition read_frame (bs : list byte) : option (list (list byte)) :=
  if list_eq_dec Byte.byte_eq_dec (firstn 7 bs) LZ4_HEADER
  then read_records (length bs) (skipn 7 bs)
  else None.

(** Decompression with [decode] as the decoder of one block. *)
Definition decompress_frame (decode : list byte -> list byte)
    (bs : list byte) : option (list byte) :=
  match read_frame bs with
  | Some payloads => Some (concat (map decode payloads))
  | None => None
  end.

(** * Proofs *)

(** ** Slices *)

Lemma len_nonneg (A : Type) (l : list A) : 0 <= len l.
Proof. unfold len. lia. Qed.

Lemma len_app (A : Type) (l1 l2 : list A) : len (l1 ++ l2) = len l1 + len l2.
Proof. unfold len. rewrite length_app. lia. Qed.

Lemma getslice_prefix (A : Type) (l : list A) (n : Z) :
  0 <= n -> getslice l 0 n = firstn (Z.to_nat n) l.
Proof.
  intros Hn. unfold getslice, slice_bound.
  assert (Hl := len_nonneg l).
  destruct (0 <? 0) eqn:E0; [ apply Z.ltb_lt in E0; lia | ].
  destruct (n <? 0) eqn:E1; [ apply Z.ltb_lt in E1; lia | ].
  rewrite (Z.min_l 0) by lia. cbn [Z.to_nat skipn]. rewrite Z.sub_0_r.
  destruct (Z.le_ge_cases n (len l)) as [H | H].
  - rewrite Z.min_l by lia. reflexivity.
  - rewrite Z.min_r by lia. unfold len in *. rewrite Nat2Z.id.
    rewrite firstn_all. symmetry. apply firstn_all2. lia.
Qed.

Lemma getslice_suffix (A : Type) (l : list A) (o : Z) :
  0 <= o -> getslice_from l o = skipn (Z.to_nat o) l.
Proof.
  intros Ho. unfold getslice_from, getslice, slice_bound.
  assert (Hl := len_nonneg l).
  destruct (o <? 0) eqn:E0; [ apply Z.ltb_lt in E0; lia | ].
  destruct (len l <? 0) eqn:E1; [ apply Z.ltb_lt in E1; lia | ].
  rewrite (Z.min_l (len l)) by lia.
  destruct (Z.le_ge_cases o (len l)) as [H | H].
  - rewrite Z.min_l by lia. apply firstn_all2.
    rewrite length_skipn. unfold len in *. lia.
  - rewrite Z.min_r by lia. unfold len in *.
    rewrite Nat2Z.id, skipn_all. rewrite skipn_all2 by lia.
    apply firstn_nil.
Qed.

Lemma u4_small (v : Z) : 0 <= v < 2 ^ 32 -> u4 v = v.
Proof. intros H. unfold u4. apply Z.mod_small. exact H. Qed.

Section Bricks.

Variable BLOCK_SIZE : Z.
Hypothesis BLOCK_SIZE_range : 0 < BLOCK_SIZE < 2 ^ 32.

Abbreviation BRICK := (BRICK_SIZE BLOCK_SIZE).

Lemma partial_blocks_range (total : Z) :
  0 <= total < BRICK -> 0 <= (total - 1) / BLOCK_SIZE + 1 <= 8.
Proof.
  unfold BRICK_SIZE. intros H.
  assert (H1 : -1 <= (total - 1) / BLOCK_SIZE)
    by (apply Z.div_le_lower_bound; lia).
  assert (H2 : (total - 1) / BLOCK_SIZE < 8)
    by (apply Z.div_lt_upper_bound; lia).
  lia.
Qed.

Lemma write_uncompressed_eq (data buffers : list byte) (sizes : list Z) :
  len buffers = BRICK ->
  length sizes = 8%nat ->
  let total := Z.min (len data) BRICK in
  write_uncompressed BLOCK_SIZE data buffers sizes
  = Ok (firstn (Z.to_nat total) data ++ skipn (Z.to_nat total) buffers,
        brick_sizes BLOCK_SIZE total, total, brick_blocks BLOCK_SIZE total).
Proof.
  intros Hb Hs total.
  assert (Hd := len_nonneg data).
  assert (Ht : 0 <= total <= BRICK) by (unfold total, BRICK_SIZE in *; lia).
  unfold write_uncompressed. change (Z.min (len data) BRICK) with total.
  clearbody total.
  rewrite Hb, Z.eqb_refl. cbn [negb].
  rewrite getslice_prefix, getslice_suffix by lia.
  do 9 (destruct sizes as [ | ? sizes ]; try discriminate Hs). clear Hs.
  unfold brick_blocks, brick_sizes.
  assert (HB : u4 BLOCK_SIZE = BLOCK_SIZE) by (apply u4_small; lia).
  destruct (total =? BRICK) eqn:E.
  - unfold setall, setslice. rewrite HB. reflexivity.
  - apply Z.eqb_neq in E.
    assert (Hm : u4 (total mod BLOCK_SIZE) = total mod BLOCK_SIZE).
    { apply u4_small.
      assert (0 <= total mod BLOCK_SIZE < BLOCK_SIZE)
        by (apply Z.mod_pos_bound; lia).
      lia. }
    assert (Hr : 0 <= (total - 1) / BLOCK_SIZE + 1 <= 8)
      by (apply partial_blocks_range; lia).
    remember ((total - 1) / BLOCK_SIZE + 1) as blocks eqn:Eb.
    remember (total mod BLOCK_SIZE) as last eqn:El.
    unfold setslice, setitem. rewrite HB.
    assert (Hcases : blocks = 0 \/ blocks = 1 \/ blocks = 2 \/ blocks = 3
                     \/ blocks = 4 \/ blocks = 5 \/ blocks = 6
                     \/ blocks = 7 \/ blocks = 8) by lia.
    clear Eb Hr.
    repeat (destruct Hcases as [Hcases | Hcases]);
      subst blocks; cbn; rewrite ?Hm; reflexivity.
Qed.

(** The sizes recorded for the valid blocks never exceed what the brick
    holds. *)
Lemma nth_brick_sizes (total : Z) (i : nat) :
  (i < 8)%nat ->
  nth i (brick_sizes BLOCK_SIZE total) 0 =
  if total =? BRICK then BLOCK_SIZE
  else if Z.of_nat i <? (total - 1) / BLOCK_SIZE then BLOCK_SIZE
  else if Z.of_nat i =? (total - 1) / BLOCK_SIZE then total mod BLOCK_SIZE
  else 0.
Proof.
  intros Hi. unfold brick_sizes.
  replace ((total - 1) / BLOCK_SIZE + 1 - 1) with ((total - 1) / BLOCK_SIZE)
    by lia.
  destruct (total =? BRICK).
  - do 8 (destruct i as [ | i ]; [ reflexivity | ]). lia.
  - do 8 (destruct i as [ | i ]; [ reflexivity | ]). lia.
Qed.

Lemma brick_sizes_length (total : Z) :
  length (brick_sizes BLOCK_SIZE total) = 8%nat.
Proof. unfold brick_sizes. destruct (total =? BRICK); reflexivity. Qed.

Lemma brick_blocks_range (total : Z) :
  0 <= total <= BRICK -> 0 <= brick_blocks BLOCK_SIZE total <= 8.
Proof.
  intros H. unfold brick_blocks.
  destruct (total =? BRICK) eqn:E; [ lia | ].
  apply Z.eqb_neq in E. apply partial_blocks_range. lia.
Qed.

Lemma brick_blocks_covers (total : Z) (i : nat) :
  0 <= total <= BRICK ->
  Z.of_nat i < brick_blocks BLOCK_SIZE total ->
  Z.of_nat i * BLOCK_SIZE < total.
Proof.
  intros H. unfold brick_blocks, BRICK_SIZE in *.
  destruct (total =? 8 * BLOCK_SIZE) eqn:E.
  - apply Z.eqb_eq in E. nia.
  - intros Hi.
    assert (Hq : Z.of_nat i <= (total - 1) / BLOCK_SIZE) by lia.
    assert (Hm := Z.mul_div_le (total - 1) BLOCK_SIZE ltac:(lia)).
    nia.
Qed.

Lemma brick_sizes_fit (total : Z) (i : nat) :
  0 <= total <= BRICK ->
  Z.of_nat i < brick_blocks BLOCK_SIZE total ->
  0 <= nth i (brick_sizes BLOCK_SIZE total) 0 <= BLOCK_SIZE
  /\ Z.of_nat i * BLOCK_SIZE + nth i (brick_sizes BLOCK_SIZE total) 0 <= total.
Proof.
  intros H Hi.
  assert (Hr := brick_blocks_range H).
  rewrite nth_brick_sizes by lia.
  unfold brick_blocks, BRICK_SIZE in *.
  destruct (total =? 8 * BLOCK_SIZE) eqn:E.
  - apply Z.eqb_eq in E. nia.
  - assert (Hmd := Z.div_mod (total - 1) BLOCK_SIZE ltac:(lia)).
    assert (Hmb := Z.mod_pos_bound (total - 1) BLOCK_SIZE ltac:(lia)).
    assert (Hm := Z.mod_pos_bound total BLOCK_SIZE ltac:(lia)).
    assert (Htd := Z.div_mod total BLOCK_SIZE ltac:(lia)).
    assert (Hle : (total - 1) / BLOCK_SIZE <= total / BLOCK_SIZE)
      by (apply Z.div_le_mono; lia).
    destruct (Z.of_nat i <? (total - 1) / BLOCK_SIZE) eqn:E1.
    + apply Z.ltb_lt in E1. nia.
    + destruct (Z.of_nat i =? (total - 1) / BLOCK_SIZE) eqn:E2.
      * apply Z.eqb_eq in E2. nia.
      * apply Z.ltb_ge in E1. apply Z.eqb_neq in E2. lia.
Qed.

End Bricks.

(** ** What [read_compressed] appends *)

Lemma write_blocks_eq (pairs : list (Z * list byte)) (stream : list byte) :
  write_blocks stream pairs
  = stream ++ flat_map (fun p => pack_I (fst p) ++ getslice (snd p) 0 (fst p))
                       pairs.
Proof.
  revert stream. induction pairs as [ | [size buffer] rest IH ]; intros stream.
  - cbn. now rewrite app_nil_r.
  - cbn [write_blocks flat_map fst snd]. rewrite IH.
    now rewrite <- !app_assoc.
Qed.

Lemma combine_firstn_nth (A B : Type) (da : A) (db : B) (n : nat) :
  forall (l1 : list A) (l2 : list B),
    (n <= length l1)%nat -> (n <= length l2)%nat ->
    combine (firstn n l1) (firstn n l2)
    = map (fun i => (nth i l1 da, nth i l2 db)) (seq 0 n).
Proof.
  induction n as [ | n IH ]; intros l1 l2 H1 H2; [ reflexivity | ].
  destruct l1 as [ | a l1 ]; [ cbn in H1; lia | ].
  destruct l2 as [ | b l2 ]; [ cbn in H2; lia | ].
  cbn [firstn combine seq map nth]. f_equal.
  rewrite IH by (cbn in *; lia).
  rewrite <- seq_shift, map_map. reflexivity.
Qed.

Lemma read_compressed_eq (stream : list byte) (buffers : list (list byte))
    (sizes : list Z) (blocks : Z) :
  0 <= blocks <= 8 ->
  length buffers = 8%nat -> length sizes = 8%nat ->
  read_compressed stream buffers sizes blocks
  = stream ++ flat_map
      (fun i => pack_I (nth i sizes 0)
                ++ getslice (nth i buffers []) 0 (nth i sizes 0))
      (seq 0 (Z.to_nat blocks)).
Proof.
  intros Hb Hl Hs. unfold read_compressed.
  rewrite write_blocks_eq, !getslice_prefix by lia.
  rewrite (combine_firstn_nth 0 []) by lia.
  rewrite flat_map_concat_map, map_map, <- flat_map_concat_map.
  reflexivity.
Qed.

Lemma read_compressed_none (stream : list byte) (buffers : list (list byte))
    (sizes : list Z) :
  read_compressed stream buffers sizes 0 = stream.
Proof.
  unfold read_compressed. rewrite write_blocks_eq, !getslice_prefix by lia.
  cbn. now rewrite app_nil_r.
Qed.

Lemma block_kernel_contract (BLOCK_SIZE : Z) :
  0 < BLOCK_SIZE ->
  accel_contract BLOCK_SIZE stored (block_kernel BLOCK_SIZE stored).
Proof.
  intros HB b brick_size. unfold block_kernel, stored. cbn [fst snd].
  split; [ reflexivity | ]. split; [ reflexivity | ].
  intros i Hi _. cbv zeta.
  split; [ | split ].
  - unfold in_block, in_row, len. rewrite !length_firstn. lia.
  - do 8 (destruct i as [ | i ]; [ reflexivity | ]). lia.
  - do 8 (destruct i as [ | i ]; [ apply firstn_all | ]). lia.
Qed.

(** ** Bricks and their payloads *)

Lemma firstn_skipn_prefix (A : Type) (n k t : nat) (d rest : list A) :
  (k + n <= t)%nat -> (t <= length d)%nat ->
  firstn n (skipn k (firstn t d ++ rest)) = firstn n (skipn k d).
Proof.
  intros H1 H2.
  rewrite skipn_app, firstn_app.
  rewrite length_skipn, length_firstn.
  replace (n - (Nat.min t (length d) - k))%nat with 0%nat by lia.
  rewrite firstn_O, app_nil_r.
  rewrite skipn_firstn_comm, firstn_firstn.
  f_equal. lia.
Qed.

Lemma nth_map_u4 (l : list Z) (i : nat) : nth i (map u4 l) 0 = u4 (nth i l 0).
Proof. exact (map_nth u4 l 0 i). Qed.

Section Pipeline.

Variable BLOCK_SIZE : Z.
Variable kernel : accelerator.
Variable codec : list byte -> list byte.
Variable eager : bool.
Hypothesis BLOCK_SIZE_range : 0 < BLOCK_SIZE < 2 ^ 32.
Hypothesis kernel_contract : accel_contract BLOCK_SIZE codec kernel.

Abbreviation BRICK := (BRICK_SIZE BLOCK_SIZE).

Lemma brick_total_range (window : list byte) :
  0 <= brick_total BLOCK_SIZE window <= BRICK.
Proof.
  unfold brick_total, BRICK_SIZE. assert (H := len_nonneg window). lia.
Qed.

Lemma write_uncompressed_packed (window : list byte) (b : slot) :
  slot_wf BLOCK_SIZE b ->
  let total := brick_total BLOCK_SIZE window in
  let b' := with_input b
              (firstn (Z.to_nat total) window
               ++ skipn (Z.to_nat total) (in_buffers b))
              (brick_sizes BLOCK_SIZE total) in
  write_uncompressed BLOCK_SIZE window (in_buffers b) (uncompressed_size b)
  = Ok (in_buffers b', uncompressed_size b', total,
        brick_blocks BLOCK_SIZE total)
  /\ slot_wf BLOCK_SIZE b' /\ packed BLOCK_SIZE b' window.
Proof.
  intros [Hb Hs] total b'.
  assert (Ht := brick_total_range window). fold total in Ht.
  assert (Hle : total <= len window) by (unfold total, brick_total; lia).
  split; [ | split ].
  - apply write_uncompressed_eq; assumption.
  - split; unfold b'; cbn [with_input in_buffers uncompressed_size].
    + rewrite len_app. unfold len in *.
      rewrite length_firstn, length_skipn. lia.
    + apply brick_sizes_length.
  - intros i Hi. fold total in Hi.
    destruct (brick_sizes_fit BLOCK_SIZE_range i Ht Hi) as [Hsz Hfit].
    unfold in_block, in_row, block_input, b'.
    cbn [with_input in_buffers uncompressed_size]. fold total.
    rewrite firstn_firstn.
    rewrite Nat.min_l by lia.
    apply firstn_skipn_prefix; unfold len in *; lia.
Qed.

(** After the kernel has run on a packed slot, [read_compressed] appends
    the records of the brick. *)
Lemma run_kernel_read (b : slot) (window st : list byte) :
  packed BLOCK_SIZE b window ->
  let total := brick_total BLOCK_SIZE window in
  let b' := run_kernel kernel b total in
  read_compressed st (out_buffers b') (compressed_size b')
    (brick_blocks BLOCK_SIZE total)
  = st ++ flat_map record (brick_payloads BLOCK_SIZE codec window).
Proof.
  intros Hp total b'.
  assert (Ht := brick_total_range window). fold total in Ht.
  assert (Hr := brick_blocks_range BLOCK_SIZE_range Ht).
  destruct (kernel_contract b total) as (Ho & Hc & Hk).
  subst b'. unfold run_kernel.
  destruct (kernel b 1024 total) as [out sizes]. cbn [fst snd] in *.
  cbn [out_buffers compressed_size].
  rewrite read_compressed_eq by (rewrite ?length_map; lia).
  f_equal. unfold brick_payloads. fold total.
  rewrite !flat_map_concat_map, map_map. f_equal.
  apply map_ext_in. intros i Hi. apply in_seq in Hi.
  assert (Hi8 : (i < 8)%nat) by lia.
  assert (Hib : Z.of_nat i < brick_blocks BLOCK_SIZE total) by lia.
  destruct (Hk i Hi8 (brick_blocks_covers BLOCK_SIZE_range i Ht Hib))
    as (Hfit & Hsz & Hpay).
  rewrite (Hp i Hib) in *.
  assert (Hl := len_nonneg (codec (block_input BLOCK_SIZE window i))).
  rewrite nth_map_u4, Hsz, u4_small by lia.
  rewrite getslice_prefix by lia.
  unfold record, len. rewrite Nat2Z.id, Hpay. reflexivity.
Qed.

Lemma brick_payloads_nil : brick_payloads BLOCK_SIZE codec [] = [].
Proof.
  unfold brick_payloads, brick_total, brick_blocks, BRICK_SIZE.
  change (len (@nil byte)) with 0.
  rewrite Z.min_l by lia.
  destruct (0 =? 8 * BLOCK_SIZE) eqn:E; [ apply Z.eqb_eq in E; lia | ].
  replace ((0 - 1) / BLOCK_SIZE + 1) with 0; [ reflexivity | ].
  assert (H : (0 - 1) / BLOCK_SIZE = -1); [ | lia ].
  symmetry. apply Z.div_unique with (r := BLOCK_SIZE - 1); lia.
Qed.

Lemma skipn_brick_total (w : list byte) :
  skipn (Z.to_nat (brick_total BLOCK_SIZE w)) w = skipn (Z.to_nat BRICK) w.
Proof.
  unfold brick_total. destruct (Z.le_ge_cases (len w) BRICK) as [H | H].
  - rewrite Z.min_l by lia. unfold len in *.
    rewrite Nat2Z.id, skipn_all. symmetry. apply skipn_all2. lia.
  - rewrite Z.min_r by lia. reflexivity.
Qed.

Lemma firstn_brick_total (w : list byte) :
  firstn (Z.to_nat BRICK) w = firstn (Z.to_nat (brick_total BLOCK_SIZE w)) w.
Proof.
  unfold brick_total. destruct (Z.le_ge_cases (len w) BRICK) as [H | H].
  - rewrite Z.min_l by lia. unfold len in *.
    rewrite Nat2Z.id, firstn_all. apply firstn_all2. lia.
  - rewrite Z.min_r by lia. reflexivity.
Qed.

Lemma brick_total_firstn (w : list byte) :
  brick_total BLOCK_SIZE (firstn (Z.to_nat BRICK) w) = brick_total BLOCK_SIZE w.
Proof.
  assert (HB : 0 < BRICK) by (unfold BRICK_SIZE; lia).
  unfold brick_total, len. rewrite length_firstn. lia.
Qed.

(** The payloads of a brick depend on the bytes of the brick only. *)
Lemma brick_payloads_firstn (w : list byte) :
  brick_payloads BLOCK_SIZE codec (firstn (Z.to_nat BRICK) w)
  = brick_payloads BLOCK_SIZE codec w.
Proof.
  unfold brick_payloads. rewrite brick_total_firstn.
  apply map_ext_in. intros i Hi. apply in_seq in Hi.
  assert (Ht := brick_total_range w).
  assert (Hr := brick_blocks_range BLOCK_SIZE_range Ht).
  assert (Hib : Z.of_nat i
                < brick_blocks BLOCK_SIZE (brick_total BLOCK_SIZE w)) by lia.
  destruct (brick_sizes_fit BLOCK_SIZE_range i Ht Hib) as [Hsz Hfit].
  f_equal. unfold block_input. rewrite brick_total_firstn.
  rewrite firstn_brick_total.
  rewrite <- (app_nil_r (firstn _ w)).
  apply firstn_skipn_prefix.
  - lia.
  - unfold brick_total, len in *. lia.
Qed.

Lemma skipn_window (view : list byte) (offset : Z) :
  0 <= offset ->
  skipn
    (Z.to_nat
       (offset + brick_total BLOCK_SIZE (skipn (Z.to_nat offset) view)))
    view
  = skipn (Z.to_nat BRICK) (skipn (Z.to_nat offset) view).
Proof.
  intros Ho.
  assert (Ht := brick_total_range (skipn (Z.to_nat offset) view)).
  rewrite <- skipn_brick_total, skipn_skipn. f_equal. lia.
Qed.

Lemma window_test (view : list byte) (offset : Z) :
  0 <= offset ->
  (offset <? len view) = negb (len (skipn (Z.to_nat offset) view) =? 0).
Proof.
  intros Ho. unfold len. rewrite length_skipn.
  destruct (offset <? Z.of_nat (length view)) eqn:E.
  - apply Z.ltb_lt in E. symmetry. apply negb_true_iff, Z.eqb_neq. lia.
  - apply Z.ltb_ge in E. symmetry. apply negb_false_iff, Z.eqb_eq. lia.
Qed.

Lemma run_kernel_wf (b : slot) (brick_size : Z) :
  slot_wf BLOCK_SIZE b -> slot_wf BLOCK_SIZE (run_kernel kernel b brick_size).
Proof.
  unfold run_kernel, slot_wf.
  destruct (kernel b 1024 brick_size) as [out sizes]. cbn. tauto.
Qed.

(** *** The loop of [compress_hw] *)

Lemma compress_hw_loop_eq (view : list byte) :
  forall (fuel : nat) (offset : Z) (m : machine slot),
    0 <= offset ->
    (length (skipn (Z.to_nat offset) view) <= fuel)%nat ->
    slot_wf BLOCK_SIZE (mem m) ->
    exists m',
      compress_hw_loop BLOCK_SIZE kernel fuel view offset m = Ok m'
      /\ stream m' =
         stream m
         ++ flat_map record
              (flat_map (brick_payloads BLOCK_SIZE codec)
                 (bricks BLOCK_SIZE fuel (skipn (Z.to_nat offset) view)))
      /\ slot_wf BLOCK_SIZE (mem m').
Proof.
  induction fuel as [ | fuel IH ]; intros offset m Ho Hf Hwf.
  - exists m. cbn [compress_hw_loop bricks flat_map].
    rewrite window_test by assumption.
    destruct (skipn (Z.to_nat offset) view); [ | cbn in Hf; lia ].
    cbn. rewrite app_nil_r. auto.
  - cbn [compress_hw_loop]. rewrite window_test by assumption.
    remember (skipn (Z.to_nat offset) view) as w eqn:Ew.
    destruct w as [ | x w' ].
    + exists m. cbn. rewrite app_nil_r. auto.
    + change (len (x :: w') =? 0) with false. cbn [negb].
      rewrite getslice_suffix by assumption. rewrite <- Ew.
      destruct (write_uncompressed_packed (x :: w') Hwf) as (Hw & Hwf' & Hp).
      rewrite Hw. cbn [bind].
      cbn [with_input in_buffers uncompressed_size out_buffers compressed_size]
        in *.
      match goal with
      | |- context [ compress_hw_loop _ _ fuel view ?o ?m1 ] =>
          destruct (IH o m1) as (m' & Hrun & Hst & Hwf'')
      end.
      * assert (Ht := brick_total_range (x :: w')). lia.
      * rewrite Ew, skipn_window by assumption. rewrite <- Ew.
        rewrite length_skipn. cbn [length] in *.
        assert (0 < BRICK) by (unfold BRICK_SIZE; lia). lia.
      * cbn [mem]. apply run_kernel_wf. exact Hwf'.
      * exists m'. split; [ exact Hrun | ]. split; [ | exact Hwf'' ].
        rewrite Hst. cbn [stream].
        rewrite (run_kernel_read _ Hp).
        rewrite Ew, skipn_window by assumption. rewrite <- Ew.
        cbn [bricks flat_map]. rewrite brick_payloads_firstn.
        rewrite flat_map_app, <- app_assoc. reflexivity.
Qed.

(** *** Slots of the ping-pong pair *)

Lemma lxor_0_1 : Z.lxor 0 1 = 1.
Proof. reflexivity. Qed.

Lemma lxor_1_1 : Z.lxor 1 1 = 0.
Proof. reflexivity. Qed.

Lemma get_slot_0 (bs : slot * slot) : get_slot bs 0 = fst bs.
Proof. reflexivity. Qed.

Lemma get_slot_1 (bs : slot * slot) : get_slot bs 1 = snd bs.
Proof. reflexivity. Qed.

Lemma set_slot_0 (bs : slot * slot) (b : slot) : set_slot bs 0 b = (b, snd bs).
Proof. reflexivity. Qed.

Lemma set_slot_1 (bs : slot * slot) (b : slot) : set_slot bs 1 b = (fst bs, b).
Proof. reflexivity. Qed.

Create Rewrite HintDb slots.
Hint Rewrite lxor_0_1 lxor_1_1 get_slot_0 get_slot_1 set_slot_0 set_slot_1
  : slots.

Ltac slots :=
  cbn [fst snd] in *; autorewrite with slots in *; cbn [fst snd] in *.

(** The slot the accelerator does not work on is not changed by [start] and
    [wait], and whenever the results are written, after the wait they are
    those of the slot as it was when the kernel was started. *)
Lemma start_other (e : bool) (bs : slot * slot) (a x : Z) :
  a = 0 \/ a = 1 ->
  get_slot (start kernel e bs (a, x)) (Z.lxor a 1) = get_slot bs (Z.lxor a 1).
Proof.
  intros [-> | ->]; unfold start; destruct e; slots; reflexivity.
Qed.

Lemma wait_start_other (e : bool) (bs : slot * slot) (a x : Z) :
  a = 0 \/ a = 1 ->
  get_slot (wait kernel e (start kernel e bs (a, x)) (a, x)) (Z.lxor a 1)
  = get_slot bs (Z.lxor a 1).
Proof.
  intros [-> | ->]; unfold start, wait; destruct e; slots; reflexivity.
Qed.

Lemma wait_start_same (e : bool) (bs : slot * slot) (a x : Z) :
  a = 0 \/ a = 1 ->
  get_slot (wait kernel e (start kernel e bs (a, x)) (a, x)) a
  = run_kernel kernel (get_slot bs a) x.
Proof.
  intros [-> | ->]; unfold start, wait; destruct e; slots; reflexivity.
Qed.

Lemma wait_pack_start (e : bool) (bs : slot * slot) (a x : Z) (b : slot) :
  a = 0 \/ a = 1 ->
  wait kernel e (set_slot (start kernel e bs (a, x)) (Z.lxor a 1) b) (a, x)
  = set_slot (set_slot bs (Z.lxor a 1) b) a
      (run_kernel kernel (get_slot bs a) x).
Proof.
  intros [-> | ->]; unfold start, wait; destruct e; slots; reflexivity.
Qed.

(** *** The events of a run, checked by a monitor *)

Lemma monitor_app (t1 t2 : list event) :
  forall q : option Z,
    monitor q (t1 ++ t2)
    = match monitor q t1 with
      | Some q' => monitor q' t2
      | None => None
      end.
Proof.
  induction t1 as [ | e t1 IH ]; intros q; [ reflexivity | ].
  cbn [app monitor]. destruct (monitor_step q e); [ apply IH | reflexivity ].
Qed.

(** *** The loop of [compress_overlapped] always reaches [break] *)

Lemma compress_overlapped_loop_total (view : list byte) :
  forall (fuel : nat) (active offset previous_blocks brick_size blocks : Z)
         (m : machine (slot * slot)),
    0 <= offset -> 0 <= brick_size ->
    active = 0 \/ active = 1 ->
    (length (skipn (Z.to_nat (offset + brick_size)) view) < fuel)%nat ->
    slot_wf BLOCK_SIZE (get_slot (mem m) 0) ->
    slot_wf BLOCK_SIZE (get_slot (mem m) 1) ->
    monitor None (trace m) = Some None ->
    exists active' previous_blocks' wh m',
      compress_overlapped_loop BLOCK_SIZE kernel eager fuel view active offset
        previous_blocks brick_size blocks m
      = Ok (active', previous_blocks', wh, m')
      /\ monitor None (trace m') = Some (Some (fst wh))
      /\ active' = Z.lxor (fst wh) 1
      /\ (fst wh = 0 \/ fst wh = 1).
Proof.
  induction fuel as [ | fuel IH ];
    intros active offset pb brick_size blocks m Ho Hbs Ha Hf Hw0 Hw1 Hmon;
    [ lia | ].
  cbn [compress_overlapped_loop]. rewrite !start_other by assumption.
  set (offset' := offset + brick_size) in *.
  set (w := skipn (Z.to_nat offset') view) in *.
  assert (Ha' : Z.lxor active 1 = 0 \/ Z.lxor active 1 = 1)
    by (destruct Ha as [-> | ->]; cbn; auto).
  assert (Hwa : slot_wf BLOCK_SIZE (get_slot (mem m) (Z.lxor active 1)))
    by (destruct Ha' as [-> | ->]; assumption).
  (* the trace after the start and the optional unpack *)
  match goal with
  | |- context [ let '(st, tr) := ?c in _ ] =>
      assert (Hc : exists st tr, c = (st, tr)
                   /\ monitor None tr = Some (Some active))
  end.
  { destruct (negb (pb =? 0)); eexists; eexists; (split; [ reflexivity | ]);
      rewrite !monitor_app, Hmon;
      destruct Ha as [-> | ->]; reflexivity. }
  destruct Hc as (st & tr & -> & Htr).
  rewrite window_test by lia. fold w.
  destruct (len w =? 0) eqn:Ew; cbn [negb].
  - do 4 eexists. split; [ reflexivity | ]. cbn [trace fst]. auto.
  - apply Z.eqb_neq in Ew.
    rewrite getslice_suffix by lia. fold w.
    destruct (write_uncompressed_packed w Hwa) as (Hwr & Hwf' & _).
    cbn [with_input in_buffers uncompressed_size out_buffers compressed_size]
      in Hwr.
    rewrite Hwr. cbn [bind]. rewrite wait_pack_start by assumption.
    assert (Ht := brick_total_range w).
    apply IH; try lia; try assumption.
    + unfold w at 1. rewrite skipn_window by lia. fold w.
      rewrite length_skipn. unfold len in Ew.
      assert (0 < BRICK) by (unfold BRICK_SIZE; lia). lia.
    + cbn [mem]. destruct Ha as [-> | ->]; slots.
      * apply run_kernel_wf. assumption.
      * assumption.
    + cbn [mem]. destruct Ha as [-> | ->]; slots.
      * assumption.
      * apply run_kernel_wf. assumption.
    + cbn [trace]. rewrite !monitor_app, Htr.
      destruct Ha as [-> | ->]; reflexivity.
Qed.

(** *** What the loop of [compress_overlapped] writes *)

(** [pending] is what the records of the brick before the current one look
    like: it is still in the slot that is not active.  The conclusion talks
    about the stream after the final wait and unpack. *)
Lemma compress_overlapped_loop_stream (view : list byte) :
  forall (fuel : nat) (active offset previous_blocks : Z)
         (m : machine (slot * slot)) (pending : list byte)
         (active' previous_blocks' : Z) (wh : handle)
         (m' : machine (slot * slot)),
    let w := skipn (Z.to_nat offset) view in
    0 <= offset ->
    active = 0 \/ active = 1 ->
    slot_wf BLOCK_SIZE (get_slot (mem m) 0) ->
    slot_wf BLOCK_SIZE (get_slot (mem m) 1) ->
    packed BLOCK_SIZE (get_slot (mem m) active) w ->
    (forall st,
        (if negb (previous_blocks =? 0) then
           read_compressed st
             (out_buffers (get_slot (mem m) (Z.lxor active 1)))
             (compressed_size (get_slot (mem m) (Z.lxor active 1)))
             previous_blocks
         else st) = st ++ pending) ->
    compress_overlapped_loop BLOCK_SIZE kernel eager fuel view active offset
      previous_blocks (brick_total BLOCK_SIZE w)
      (brick_blocks BLOCK_SIZE (brick_total BLOCK_SIZE w)) m
    = Ok (active', previous_blocks', wh, m') ->
    let bs := wait kernel eager (mem m') wh in
    let last := Z.lxor active' 1 in
    read_compressed (stream m') (out_buffers (get_slot bs last))
      (compressed_size (get_slot bs last)) previous_blocks'
    = stream m ++ pending
      ++ flat_map record
           (flat_map (brick_payloads BLOCK_SIZE codec)
              (bricks BLOCK_SIZE fuel w)).
Proof.
  induction fuel as [ | fuel IH ];
    intros active offset pb m pending active' pb' wh m' w
           Ho Ha Hw0 Hw1 Hp Hpend Hrun;
    [ discriminate Hrun | ].
  cbn [compress_overlapped_loop] in Hrun.
  rewrite !start_other in Hrun by assumption.
  set (offset' := offset + brick_total BLOCK_SIZE w) in *.
  assert (Ht := brick_total_range w).
  assert (Ho' : Z.lxor active 1 = 0 \/ Z.lxor active 1 = 1)
    by (destruct Ha as [-> | ->]; cbn; auto).
  assert (Hwo : slot_wf BLOCK_SIZE (get_slot (mem m) (Z.lxor active 1)))
    by (destruct Ho' as [-> | ->]; assumption).
  (* the stream after the optional unpack *)
  match type of Hrun with
  | context [ let '(st, tr) := ?c in _ ] =>
      assert (Hc : exists tr, c = (stream m ++ pending, tr))
  end.
  { destruct (negb (pb =? 0)); eexists;
      rewrite <- (Hpend (stream m)); reflexivity. }
  destruct Hc as (tr & Hc). rewrite Hc in Hrun. clear Hc.
  (* the records of the current brick, once its kernel has run *)
  assert (Hcur : forall st,
             read_compressed st
               (out_buffers
                  (run_kernel kernel (get_slot (mem m) active)
                     (brick_total BLOCK_SIZE w)))
               (compressed_size
                  (run_kernel kernel (get_slot (mem m) active)
                     (brick_total BLOCK_SIZE w)))
               (brick_blocks BLOCK_SIZE (brick_total BLOCK_SIZE w))
             = st ++ flat_map record (brick_payloads BLOCK_SIZE codec w))
    by (intros st; apply run_kernel_read; assumption).
  assert (Hnext : skipn (Z.to_nat offset') view = skipn (Z.to_nat BRICK) w)
    by (apply skipn_window; assumption).
  assert (Hbricks :
            flat_map (brick_payloads BLOCK_SIZE codec)
              (bricks BLOCK_SIZE (S fuel) w)
            = brick_payloads BLOCK_SIZE codec w
              ++ flat_map (brick_payloads BLOCK_SIZE codec)
                   (bricks BLOCK_SIZE fuel (skipn (Z.to_nat BRICK) w))).
  { destruct w as [ | x w0 ] eqn:Ew.
    - cbn [bricks flat_map]. rewrite skipn_nil.
      destruct fuel; cbn [bricks flat_map]; now rewrite brick_payloads_nil.
    - cbn [bricks flat_map]. now rewrite brick_payloads_firstn. }
  rewrite Hbricks, flat_map_app. clear Hbricks.
  rewrite window_test in Hrun by lia. rewrite Hnext in Hrun.
  destruct (len (skipn (Z.to_nat BRICK) w) =? 0) eqn:Ew; cbn [negb] in Hrun.
  - (* break *)
    injection Hrun as <- <- <- <-. intros bs last. subst bs last.
    apply Z.eqb_eq in Ew. unfold len in Ew.
    destruct (skipn (Z.to_nat BRICK) w); [ | cbn in Ew; lia ].
    assert (Hnil : flat_map (brick_payloads BLOCK_SIZE codec)
                     (bricks BLOCK_SIZE fuel []) = [])
      by (destruct fuel; reflexivity).
    rewrite Hnil. cbn [flat_map]. rewrite app_nil_r.
    cbn [mem stream].
    replace (Z.lxor (Z.lxor active 1) 1) with active
      by (destruct Ha as [-> | ->]; reflexivity).
    rewrite wait_start_same by assumption.
    rewrite Hcur. now rewrite <- app_assoc.
  - (* the next brick is packed, then the wait returns *)
    rewrite getslice_suffix in Hrun by lia. rewrite Hnext in Hrun.
    destruct (write_uncompressed_packed (skipn (Z.to_nat BRICK) w) Hwo)
      as (Hwr & Hwf' & Hp').
    cbn [with_input in_buffers uncompressed_size out_buffers compressed_size]
      in Hwr.
    rewrite Hwr in Hrun. cbn [bind] in Hrun.
    rewrite wait_pack_start in Hrun by assumption.
    rewrite <- Hnext in Hrun, Hp', Hwf'.
    intros bs last. subst bs last.
    eapply IH with (pending := flat_map record
                                 (brick_payloads BLOCK_SIZE codec w))
      in Hrun.
    + cbv zeta in Hrun. rewrite Hrun. cbn [stream].
      rewrite Hnext, <- !app_assoc. reflexivity.
    + lia.
    + exact Ho'.
    + cbn [mem]. destruct Ha as [-> | ->]; slots.
      * apply run_kernel_wf. assumption.
      * exact Hwf'.
    + cbn [mem]. destruct Ha as [-> | ->]; slots.
      * exact Hwf'.
      * apply run_kernel_wf. assumption.
    + cbn [mem]. destruct Ha as [-> | ->]; slots; exact Hp'.
    + intros st. cbn [mem].
      destruct (brick_blocks BLOCK_SIZE (brick_total BLOCK_SIZE w) =? 0)
        eqn:E; cbn [negb].
      * apply Z.eqb_eq in E. unfold brick_payloads. rewrite E. cbn.
        now rewrite app_nil_r.
      * destruct Ha as [-> | ->]; slots; apply Hcur.
Qed.

(** *** Whole runs *)

Lemma bricks_stable :
  forall (f1 f2 : nat) (w : list byte),
    (length w <= f1)%nat -> (length w <= f2)%nat ->
    bricks BLOCK_SIZE f1 w = bricks BLOCK_SIZE f2 w.
Proof.
  assert (HB : (0 < Z.to_nat BRICK)%nat) by (unfold BRICK_SIZE; lia).
  induction f1 as [ | f1 IH ]; intros f2 w H1 H2.
  - destruct w; [ | cbn in H1; lia ]. destruct f2; reflexivity.
  - destruct w as [ | x w ]; [ destruct f2; reflexivity | ].
    destruct f2 as [ | f2 ]; [ cbn in H2; lia | ].
    cbn [bricks]. f_equal.
    apply IH; rewrite length_skipn; cbn [length] in *; lia.
Qed.

Lemma compress_hw_stream (raw_data : list byte) (buffers : slot) :
  slot_wf BLOCK_SIZE buffers ->
  exists m,
    compress_hw BLOCK_SIZE kernel raw_data buffers = Ok m
    /\ stream m =
       LZ4_HEADER
       ++ flat_map record
            (flat_map (brick_payloads BLOCK_SIZE codec)
               (all_bricks BLOCK_SIZE raw_data))
       ++ END_MARK.
Proof.
  intros Hwf. unfold compress_hw.
  destruct (@compress_hw_loop_eq raw_data (S (length raw_data)) 0
              (Machine buffers LZ4_HEADER []))
    as (m & Hrun & Hst & _); [ lia | cbn [Z.to_nat skipn]; lia | exact Hwf | ].
  rewrite Hrun. cbn [bind]. eexists. split; [ reflexivity | ].
  cbn [stream]. rewrite Hst. cbn [stream Z.to_nat skipn].
  rewrite (@bricks_stable _ (length raw_data) raw_data) by lia.
  now rewrite <- app_assoc.
Qed.

(** The first [write_uncompressed] of [compress_overlapped]. *)
Lemma first_pack (raw_data : list byte) (buffers : slot * slot) :
  slot_wf BLOCK_SIZE (get_slot buffers 0) ->
  let total := brick_total BLOCK_SIZE raw_data in
  exists b : slot,
    write_uncompressed BLOCK_SIZE (getslice_from raw_data 0)
      (in_buffers (get_slot buffers 0))
      (uncompressed_size (get_slot buffers 0))
    = Ok (in_buffers b, brick_sizes BLOCK_SIZE total, total,
          brick_blocks BLOCK_SIZE total)
    /\ with_input (get_slot buffers 0) (in_buffers b)
         (brick_sizes BLOCK_SIZE total) = b
    /\ slot_wf BLOCK_SIZE b /\ packed BLOCK_SIZE b raw_data.
Proof.
  intros Hwf total.
  rewrite getslice_suffix by lia. cbn [Z.to_nat skipn].
  destruct (write_uncompressed_packed raw_data Hwf) as (Hw & Hwf' & Hp).
  eexists. split; [ exact Hw | ]. split; [ reflexivity | ]. split; assumption.
Qed.

Lemma compress_overlapped_monitor (raw_data : list byte)
    (buffers : slot * slot) :
  slot_wf BLOCK_SIZE (get_slot buffers 0) ->
  slot_wf BLOCK_SIZE (get_slot buffers 1) ->
  exists m,
    compress_overlapped BLOCK_SIZE kernel eager raw_data buffers = Ok m
    /\ monitor None (trace m) = Some None.
Proof.
  intros Hw0 Hw1. unfold compress_overlapped.
  destruct (first_pack raw_data buffers Hw0) as (b & Hw & Hb & Hwf & _).
  rewrite Hw. cbn [bind]. rewrite Hb.
  assert (Ht := brick_total_range raw_data).
  match goal with
  | |- context [ compress_overlapped_loop _ _ _ ?f ?v ?a ?o ?pb ?bs ?bl ?m ] =>
      destruct (@compress_overlapped_loop_total v f a o pb bs bl m)
        as (a' & pb' & wh & m' & Hrun & Hmon & Ha' & Hwh)
  end; try lia; try (left; reflexivity).
  - rewrite length_skipn. lia.
  - cbn [mem]. slots. exact Hwf.
  - cbn [mem]. slots. exact Hw1.
  - reflexivity.
  - rewrite Hrun. cbn [bind]. eexists. split; [ reflexivity | ].
    cbn [trace]. rewrite !monitor_app, Hmon. subst a'.
    destruct Hwh as [-> | ->]; reflexivity.
Qed.

Lemma compress_overlapped_stream (raw_data : list byte)
    (buffers : slot * slot) :
  slot_wf BLOCK_SIZE (get_slot buffers 0) ->
  slot_wf BLOCK_SIZE (get_slot buffers 1) ->
  exists m,
    compress_overlapped BLOCK_SIZE kernel eager raw_data buffers = Ok m
    /\ stream m =
       LZ4_HEADER
       ++ flat_map record
            (flat_map (brick_payloads BLOCK_SIZE codec)
               (all_bricks BLOCK_SIZE raw_data))
       ++ END_MARK.
Proof.
  intros Hw0 Hw1.
  destruct (compress_overlapped_monitor raw_data buffers Hw0 Hw1)
    as (m & Hrun & _).
  exists m. split; [ exact Hrun | ].
  unfold compress_overlapped in Hrun.
  destruct (first_pack raw_data buffers Hw0) as (b & Hw & Hb & Hwf & Hp).
  rewrite Hw in Hrun. cbn [bind] in Hrun. rewrite Hb in Hrun.
  match type of Hrun with
  | context [ compress_overlapped_loop _ _ _ ?f ?v ?a ?o ?pb ?bs ?bl ?m0 ] =>
      destruct (compress_overlapped_loop _ _ _ f v a o pb bs bl m0)
        as [ [[[a' pb'] wh] m'] | ] eqn:Hloop; [ | discriminate Hrun ];
      eapply (@compress_overlapped_loop_stream v f a o pb m0 [])
        in Hloop
  end.
  - cbn [bind] in Hrun. injection Hrun as <-. cbn [stream].
    cbv zeta in Hloop. rewrite Hloop. cbn [stream Z.to_nat skipn app].
    rewrite (@bricks_stable _ (length raw_data) raw_data) by lia.
    now rewrite <- app_assoc.
  - lia.
  - left. reflexivity.
  - cbn [mem]. slots. exact Hwf.
  - cbn [mem]. slots. exact Hw1.
  - cbn [mem Z.to_nat skipn]. slots. exact Hp.
  - intros st. cbn. now rewrite app_nil_r.
Qed.

(** *** From the monitor to the slot discipline *)

Lemma monitor_split (t1 t2 : list event) (q q' : option Z) :
  monitor q (t1 ++ t2) = Some q' ->
  exists q1, monitor q t1 = Some q1 /\ monitor q1 t2 = Some q'.
Proof.
  rewrite monitor_app. destruct (monitor q t1) as [ q1 | ]; [ | discriminate ].
  intros H. exists q1. auto.
Qed.

Lemma monitor_outstanding (t : list event) :
  forall q q' : option Z,
    monitor q t = Some q' ->
    outstanding t = inflight_count q' - inflight_count q.
Proof.
  induction t as [ | e t IH ]; intros q q' H.
  - cbn in H. injection H as <-. cbn. lia.
  - cbn [monitor] in H.
    destruct (monitor_step q e) as [ q1 | ] eqn:E; [ | discriminate ].
    apply IH in H. unfold monitor_step in E.
    destruct (negb _); [ discriminate | ].
    destruct e, q as [ s0 | ]; cbn [outstanding];
      try discriminate;
      try (destruct (s0 =? s); try discriminate);
      injection E as <-; cbn [inflight_count] in *; lia.
Qed.

(** While no wait for [s] is seen the accelerator keeps slot [s]. *)
Lemma monitor_held (s : Z) (rest : list event) (q : option Z) :
  forall t2 : list event,
    monitor (Some s) (t2 ++ rest) = Some q ->
    ~ In (EvWait s) t2 ->
    monitor (Some s) rest = Some q.
Proof.
  induction t2 as [ | e t2 IH ]; intros H Hn; [ exact H | ].
  cbn [app monitor] in H.
  destruct (monitor_step (Some s) e) as [ q1 | ] eqn:E; [ | discriminate ].
  assert (Hq : q1 = Some s).
  { unfold monitor_step in E. destruct (negb _); [ discriminate | ].
    destruct e as [ s0 ? ? ? | s0 ? | s0 ? | s0 | s0 ? ];
      try discriminate;
      destruct (s =? s0) eqn:Es; try discriminate;
      try (injection E as <-; reflexivity).
    apply Z.eqb_eq in Es. subst s0. exfalso. apply Hn. left. reflexivity. }
  subst q1. apply IH; [ exact H | ].
  intros Hin. apply Hn. right. exact Hin.
Qed.

Lemma monitor_start (t1 rest : list event) (s b : Z) (q : option Z) :
  monitor None (t1 ++ EvStart s b :: rest) = Some q ->
  (s = 0 \/ s = 1) /\ monitor (Some s) rest = Some q.
Proof.
  intros H. apply monitor_split in H. destruct H as (q1 & _ & H).
  cbn [monitor] in H. unfold monitor_step in H. cbn [event_slot] in H.
  destruct ((s =? 0) || (s =? 1)) eqn:Es; cbn [negb] in H; [ | discriminate ].
  destruct q1; [ discriminate | ].
  split; [ | exact H ].
  apply orb_true_iff in Es.
  destruct Es as [Es | Es]; apply Z.eqb_eq in Es; auto.
Qed.

Lemma monitor_ownership (t : list event) (q : option Z) :
  monitor None t = Some q -> ownership_respected t.
Proof.
  intros H t1 s b t2 e t3 s' Ht Hn He. subst t.
  apply monitor_start in H. destruct H as (Hs & H).
  apply monitor_held in H; [ | exact Hn ].
  cbn [monitor] in H. unfold monitor_step in H.
  destruct e as [ s0 ? ? ? | s0 ? | s0 ? | s0 | s0 ? ];
    cbn [host_slot] in He; try discriminate;
    injection He as ->; cbn [event_slot] in H;
    destruct ((s' =? 0) || (s' =? 1)) eqn:Es; cbn [negb] in H;
    try discriminate;
    destruct (s =? s') eqn:E; try discriminate;
    apply Z.eqb_neq in E; apply orb_true_iff in Es;
    destruct Es as [Es | Es]; apply Z.eqb_eq in Es; subst s';
    destruct Hs as [-> | ->]; try reflexivity; lia.
Qed.

Lemma monitor_sequenced (t : list event) (q : option Z) :
  monitor None t = Some q -> submissions_sequenced t.
Proof.
  intros H t1 s b t2 s' b' t3 Ht. subst t.
  apply monitor_start in H. destruct H as (_ & H).
  revert H. induction t2 as [ | e t2 IH ]; intros H.
  - cbn [app monitor] in H. unfold monitor_step in H.
    destruct (negb _); discriminate.
  - cbn [app monitor] in H.
    destruct (monitor_step (Some s) e) as [ q1 | ] eqn:E; [ | discriminate ].
    unfold monitor_step in E. destruct (negb _); [ discriminate | ].
    destruct e as [ s0 ? ? ? | s0 ? | s0 ? | s0 | s0 ? ];
      try discriminate;
      destruct (s =? s0) eqn:Es; try discriminate;
      try (injection E as <-; right; apply IH; exact H).
    apply Z.eqb_eq in Es. subst s0. left. reflexivity.
Qed.

Lemma monitor_one_outstanding (t : list event) (q : option Z) :
  monitor None t = Some q -> one_outstanding t.
Proof.
  intros H p r Ht. subst t.
  apply monitor_split in H. destruct H as (q1 & H & _).
  apply monitor_outstanding in H. rewrite H.
  destruct q1; cbn; lia.
Qed.

(** *** Bricks of particular lengths *)

Lemma brick_full (w : list byte) :
  BRICK <= len w ->
  brick_total BLOCK_SIZE w = BRICK
  /\ brick_blocks BLOCK_SIZE BRICK = 8
  /\ brick_sizes BLOCK_SIZE BRICK = repeat BLOCK_SIZE 8.
Proof.
  intros H. unfold brick_total, brick_blocks, brick_sizes.
  rewrite Z.eqb_refl. split; [ lia | auto ].
Qed.

Lemma brick_one_byte (w : list byte) :
  1 < BLOCK_SIZE ->
  len w = 1 ->
  brick_total BLOCK_SIZE w = 1
  /\ brick_blocks BLOCK_SIZE 1 = 1
  /\ brick_sizes BLOCK_SIZE 1 = [1; 0; 0; 0; 0; 0; 0; 0].
Proof.
  intros HB H. unfold brick_total, brick_blocks, brick_sizes, BRICK_SIZE.
  destruct (1 =? 8 * BLOCK_SIZE) eqn:E; [ apply Z.eqb_eq in E; lia | ].
  change (1 - 1) with 0. rewrite Z.div_0_l by lia.
  rewrite Z.mod_small by lia.
  split; [ lia | ]. split; reflexivity.
Qed.

Lemma brick_empty :
  brick_total BLOCK_SIZE [] = 0
  /\ brick_blocks BLOCK_SIZE 0 = 0
  /\ brick_sizes BLOCK_SIZE 0 = repeat 0 8.
Proof.
  assert (Hq : (0 - 1) / BLOCK_SIZE + 1 = 0).
  { assert (H : (0 - 1) / BLOCK_SIZE = -1); [ | lia ].
    symmetry. apply Z.div_unique with (r := BLOCK_SIZE - 1); lia. }
  unfold brick_total, brick_blocks, brick_sizes, BRICK_SIZE.
  change (len (@nil byte)) with 0.
  destruct (0 =? 8 * BLOCK_SIZE) eqn:E; [ apply Z.eqb_eq in E; lia | ].
  rewrite Hq, Z.mod_0_l by lia.
  split; [ lia | ]. split; reflexivity.
Qed.

(** *** Short runs of [compress_hw] *)

Lemma compress_hw_loop_done (fuel : nat) (view : list byte) (offset : Z)
    (m : machine slot) :
  (offset <? len view) = false ->
  compress_hw_loop BLOCK_SIZE kernel fuel view offset m = Ok m.
Proof.
  intros E. destruct fuel; cbn [compress_hw_loop]; rewrite E; reflexivity.
Qed.

Lemma compress_hw_exact_brick (raw_data : list byte) (hw_buffers : slot) :
  slot_wf BLOCK_SIZE hw_buffers ->
  len raw_data = 8 * BLOCK_SIZE ->
  exists m,
    compress_hw BLOCK_SIZE kernel raw_data hw_buffers = Ok m
    /\ trace m =
       [ EvPack 0 (8 * BLOCK_SIZE) 8 (repeat BLOCK_SIZE 8);
         EvCall 0 (8 * BLOCK_SIZE);
         EvUnpack 0 8 ].
Proof.
  intros Hwf Hlen. unfold compress_hw.
  cbn [compress_hw_loop mem stream trace].
  assert (E : (0 <? len raw_data) = true) by (apply Z.ltb_lt; lia).
  rewrite E. rewrite getslice_suffix by lia. cbn [Z.to_nat skipn].
  destruct (write_uncompressed_packed raw_data Hwf) as (Hw & _ & _).
  cbn [with_input in_buffers uncompressed_size] in Hw.
  rewrite Hw. cbn [bind]. clear Hw.
  destruct (@brick_full raw_data) as (Ht & Hbl & Hsz);
    [ unfold BRICK_SIZE; lia | ].
  rewrite Ht, Hbl, Hsz.
  rewrite compress_hw_loop_done
    by (apply Z.ltb_ge; unfold BRICK_SIZE; lia).
  cbn [bind]. eexists. split; reflexivity.
Qed.

Lemma compress_hw_one_byte_over (raw_data : list byte) (hw_buffers : slot) :
  slot_wf BLOCK_SIZE hw_buffers ->
  1 < BLOCK_SIZE ->
  len raw_data = 8 * BLOCK_SIZE + 1 ->
  exists m,
    compress_hw BLOCK_SIZE kernel raw_data hw_buffers = Ok m
    /\ trace m =
       [ EvPack 0 (8 * BLOCK_SIZE) 8 (repeat BLOCK_SIZE 8);
         EvCall 0 (8 * BLOCK_SIZE);
         EvUnpack 0 8;
         EvPack 0 1 1 [1; 0; 0; 0; 0; 0; 0; 0];
         EvCall 0 1;
         EvUnpack 0 1 ].
Proof.
  intros Hwf HB Hlen. unfold compress_hw.
  replace (S (length raw_data)) with (S (S (Z.to_nat BRICK)))
    by (unfold len, BRICK_SIZE in *; lia).
  (* first brick *)
  cbn [compress_hw_loop mem stream trace].
  assert (E : (0 <? len raw_data) = true) by (apply Z.ltb_lt; lia).
  rewrite E. rewrite getslice_suffix by lia. cbn [Z.to_nat skipn].
  destruct (write_uncompressed_packed raw_data Hwf) as (Hw & Hwf1 & _).
  cbn [with_input in_buffers uncompressed_size] in Hw.
  rewrite Hw. cbn [bind]. clear Hw.
  destruct (@brick_full raw_data) as (Ht & Hbl & Hsz);
    [ unfold BRICK_SIZE; lia | ].
  rewrite Ht, Hbl, Hsz in *.
  (* second brick *)
  assert (E1 : (0 + BRICK <? len raw_data) = true)
    by (apply Z.ltb_lt; unfold BRICK_SIZE; lia).
  rewrite E1. rewrite getslice_suffix by (unfold BRICK_SIZE; lia).
  set (w := skipn (Z.to_nat (0 + BRICK)) raw_data).
  assert (Hlw : len w = 1).
  { unfold w, len in *. rewrite length_skipn. unfold BRICK_SIZE. lia. }
  destruct (brick_one_byte w HB Hlw) as (Ht1 & Hbl1 & Hsz1).
  apply run_kernel_wf with (brick_size := BRICK) in Hwf1.
  destruct (write_uncompressed_packed w Hwf1) as (Hw & _ & _).
  cbn [with_input in_buffers uncompressed_size] in Hw.
  cbn [mem]. rewrite Hw. cbn [bind]. clear Hw.
  rewrite Ht1, Hbl1, Hsz1.
  rewrite compress_hw_loop_done
    by (apply Z.ltb_ge; unfold BRICK_SIZE; lia).
  cbn [bind]. eexists. split; reflexivity.
Qed.

Lemma compress_overlapped_exact_brick (raw_data : list byte)
    (buffers : slot * slot) :
  slot_wf BLOCK_SIZE (get_slot buffers 0) ->
  slot_wf BLOCK_SIZE (get_slot buffers 1) ->
  len raw_data = 8 * BLOCK_SIZE ->
  exists m,
    compress_overlapped BLOCK_SIZE kernel eager raw_data buffers = Ok m
    /\ trace m =
       [ EvPack 0 (8 * BLOCK_SIZE) 8 (repeat BLOCK_SIZE 8);
         EvStart 0 (8 * BLOCK_SIZE);
         EvWait 0;
         EvUnpack 0 8 ]
    /\ submissions (trace m) = 1%nat.
Proof.
  intros Hw0 Hw1 Hlen. unfold compress_overlapped.
  destruct (first_pack raw_data buffers Hw0) as (b & Hw & Hb & Hwf & _).
  rewrite Hw. cbn [bind]. rewrite Hb. clear Hw Hb.
  destruct (@brick_full raw_data) as (Ht & Hbl & Hsz);
    [ unfold BRICK_SIZE; lia | ].
  rewrite Ht, Hbl, Hsz.
  cbn [compress_overlapped_loop mem stream trace].
  change (negb (0 =? 0)) with false. cbv iota.
  assert (E : (0 + BRICK <? len raw_data) = false)
    by (apply Z.ltb_ge; unfold BRICK_SIZE; lia).
  rewrite E. cbn [bind].
  eexists. split; [ reflexivity | ].
  cbn [trace app fst]. split; reflexivity.
Qed.

Lemma compress_overlapped_one_byte_over (raw_data : list byte)
    (buffers : slot * slot) :
  slot_wf BLOCK_SIZE (get_slot buffers 0) ->
  slot_wf BLOCK_SIZE (get_slot buffers 1) ->
  1 < BLOCK_SIZE ->
  len raw_data = 8 * BLOCK_SIZE + 1 ->
  exists m,
    compress_overlapped BLOCK_SIZE kernel eager raw_data buffers = Ok m
    /\ trace m =
       [ EvPack 0 (8 * BLOCK_SIZE) 8 (repeat BLOCK_SIZE 8);
         EvStart 0 (8 * BLOCK_SIZE);
         EvPack 1 1 1 [1; 0; 0; 0; 0; 0; 0; 0];
         EvWait 0;
         EvStart 1 1;
         EvUnpack 0 8;
         EvWait 1;
         EvUnpack 1 1 ]
    /\ submissions (trace m) = 2%nat.
Proof.
  intros Hw0 Hw1 HB Hlen. unfold compress_overlapped.
  destruct (first_pack raw_data buffers Hw0) as (b & Hw & Hb & Hwf & _).
  rewrite Hw. cbn [bind]. rewrite Hb. clear Hw Hb.
  destruct (@brick_full raw_data) as (Ht & Hbl & Hsz);
    [ unfold BRICK_SIZE; lia | ].
  rewrite Ht, Hbl, Hsz.
  replace (S (length raw_data)) with (S (S (Z.to_nat BRICK)))
    by (unfold len, BRICK_SIZE in *; lia).
  (* first iteration *)
  cbn [compress_overlapped_loop mem stream trace].
  change (negb (0 =? 0)) with false. cbv iota.
  assert (E : (0 + BRICK <? len raw_data) = true)
    by (apply Z.ltb_lt; unfold BRICK_SIZE; lia).
  rewrite E. rewrite getslice_suffix by (unfold BRICK_SIZE; lia).
  set (w := skipn (Z.to_nat (0 + BRICK)) raw_data).
  assert (Hlw : len w = 1).
  { unfold w, len in *. rewrite length_skipn. unfold BRICK_SIZE. lia. }
  destruct (brick_one_byte w HB Hlw) as (Ht1 & Hbl1 & Hsz1).
  rewrite !start_other by (left; reflexivity). slots.
  destruct (write_uncompressed_packed w Hw1) as (Hwr & _ & _).
  cbn [with_input in_buffers uncompressed_size] in Hwr.
  rewrite Hwr. cbn [bind]. clear Hwr.
  rewrite Ht1, Hbl1, Hsz1.
  (* second iteration *)
  cbn [mem stream trace].
  change (negb (8 =? 0)) with true. cbv iota.
  assert (E1 : (0 + BRICK + 1 <? len raw_data) = false)
    by (apply Z.ltb_ge; unfold BRICK_SIZE; lia).
  rewrite E1. cbn [bind].
  eexists. split; [ reflexivity | ].
  cbn [trace app fst]. split; reflexivity.
Qed.

(** ** The claims *)

(** C8.  An input of exactly [8 * BLOCK_SIZE] bytes is one full brick:
    [write_uncompressed] returns 8 blocks and sets all 8 sizes to
    [BLOCK_SIZE], the kernel is invoked once, and in the pipeline the loop
    is left after the first start, the single in-flight result is waited
    for and unpacked. *)
Theorem exact_brick_one_submission (raw_data : list byte)
    (hw_buffers : slot) (buffers : slot * slot) :
  slot_wf BLOCK_SIZE hw_buffers ->
  slot_wf BLOCK_SIZE (get_slot buffers 0) ->
  slot_wf BLOCK_SIZE (get_slot buffers 1) ->
  len raw_data = 8 * BLOCK_SIZE ->
  exists m_hw m_ov,
    compress_hw BLOCK_SIZE kernel raw_data hw_buffers = Ok m_hw
    /\ compress_overlapped BLOCK_SIZE kernel eager raw_data buffers = Ok m_ov
    /\ trace m_hw =
       [ EvPack 0 (8 * BLOCK_SIZE) 8 (repeat BLOCK_SIZE 8);
         EvCall 0 (8 * BLOCK_SIZE);
         EvUnpack 0 8 ]
    /\ trace m_ov =
       [ EvPack 0 (8 * BLOCK_SIZE) 8 (repeat BLOCK_SIZE 8);
         EvStart 0 (8 * BLOCK_SIZE);
         EvWait 0;
         EvUnpack 0 8 ]
    /\ submissions (trace m_hw) = 1%nat
    /\ submissions (trace m_ov) = 1%nat.
Proof.
  intros Hw Hw0 Hw1 Hlen.
  destruct (compress_hw_exact_brick raw_data Hw Hlen) as (m1 & Hrun1 & Htr1).
  destruct (compress_overlapped_exact_brick raw_data buffers Hw0 Hw1 Hlen)
    as (m2 & Hrun2 & Htr2 & Hsub2).
  exists m1, m2. rewrite Htr1. auto 6.
Qed.

(** C7.  An input of [8 * BLOCK_SIZE + 1] bytes is processed as two bricks:
    the kernel is invoked twice, and for the second brick
    [write_uncompressed] returns one block, records its length as 1 and
    sets the other 7 sizes to 0. *)
Theorem one_byte_over_two_bricks (raw_data : list byte)
    (hw_buffers : slot) (buffers : slot * slot) :
  slot_wf BLOCK_SIZE hw_buffers ->
  slot_wf BLOCK_SIZE (get_slot buffers 0) ->
  slot_wf BLOCK_SIZE (get_slot buffers 1) ->
  1 < BLOCK_SIZE ->
  len raw_data = 8 * BLOCK_SIZE + 1 ->
  exists m_hw m_ov,
    compress_hw BLOCK_SIZE kernel raw_data hw_buffers = Ok m_hw
    /\ compress_overlapped BLOCK_SIZE kernel eager raw_data buffers = Ok m_ov
    /\ trace m_hw =
       [ EvPack 0 (8 * BLOCK_SIZE) 8 (repeat BLOCK_SIZE 8);
         EvCall 0 (8 * BLOCK_SIZE);
         EvUnpack 0 8;
         EvPack 0 1 1 [1; 0; 0; 0; 0; 0; 0; 0];
         EvCall 0 1;
         EvUnpack 0 1 ]
    /\ trace m_ov =
       [ EvPack 0 (8 * BLOCK_SIZE) 8 (repeat BLOCK_SIZE 8);
         EvStart 0 (8 * BLOCK_SIZE);
         EvPack 1 1 1 [1; 0; 0; 0; 0; 0; 0; 0];
         EvWait 0;
         EvStart 1 1;
         EvUnpack 0 8;
         EvWait 1;
         EvUnpack 1 1 ]
    /\ submissions (trace m_hw) = 2%nat
    /\ submissions (trace m_ov) = 2%nat.
Proof.
  intros Hw Hw0 Hw1 HB Hlen.
  destruct (compress_hw_one_byte_over raw_data Hw HB Hlen)
    as (m1 & Hrun1 & Htr1).
  destruct (compress_overlapped_one_byte_over raw_data buffers Hw0 Hw1 HB Hlen)
    as (m2 & Hrun2 & Htr2 & Hsub2).
  exists m1, m2. rewrite Htr1. auto 6.
Qed.

(** C4 (evaluation).  On an empty input [compress_hw] writes the header and
    the end mark and never calls the kernel; [compress_overlapped] writes
    the same stream but starts the kernel once, on a brick of 0 bytes. *)
Theorem empty_input_runs (hw_buffers : slot) (buffers : slot * slot) :
  slot_wf BLOCK_SIZE (get_slot buffers 0) ->
  compress_hw BLOCK_SIZE kernel [] hw_buffers
  = Ok (Machine hw_buffers (LZ4_HEADER ++ END_MARK) [])
  /\ exists m,
       compress_overlapped BLOCK_SIZE kernel eager [] buffers = Ok m
       /\ stream m = LZ4_HEADER ++ END_MARK
       /\ trace m =
          [ EvPack 0 0 0 (repeat 0 8); EvStart 0 0; EvWait 0; EvUnpack 0 0 ]
       /\ submissions (trace m) = 1%nat.
Proof.
  intros Hw0. split; [ reflexivity | ].
  unfold compress_overlapped.
  destruct (first_pack [] buffers Hw0) as (b & Hw & Hb & Hwf & _).
  rewrite Hw. cbn [bind]. rewrite Hb. clear Hw Hb.
  destruct brick_empty as (Ht & Hbl & Hsz).
  rewrite Ht, Hbl, Hsz.
  cbn [length compress_overlapped_loop mem stream trace].
  change (negb (0 =? 0)) with false. cbv iota.
  change (0 + 0 <? len (@nil byte)) with false. cbv iota. cbn [bind].
  eexists. split; [ reflexivity | ].
  cbn [stream trace app fst]. rewrite read_compressed_none.
  repeat split; reflexivity.
Qed.

(** C10.  On an empty window [write_uncompressed] returns [(0, 0)] and
    leaves all 8 sizes at 0.  The block count is [(0 - 1) // BLOCK_SIZE + 1
    = 0], so the first assignment is [sizes[0:-1] = BLOCK_SIZE] (entries 0
    to 6), the second is [sizes[-1] = 0] (entry 7), and [sizes[0:8] = 0]
    then overwrites them all. *)
Theorem write_uncompressed_empty_window (buffers : list byte)
    (sizes : list Z) :
  len buffers = BRICK ->
  length sizes = 8%nat ->
  write_uncompressed BLOCK_SIZE [] buffers sizes
  = Ok (buffers, repeat 0 8, 0, 0)
  /\ (0 - 1) / BLOCK_SIZE + 1 = 0
  /\ setslice sizes 0 (0 - 1) BLOCK_SIZE
     = repeat BLOCK_SIZE 7 ++ [nth 7 sizes 0]
  /\ setitem (setslice sizes 0 (0 - 1) BLOCK_SIZE) (0 - 1)
       (0 mod BLOCK_SIZE)
     = Ok (repeat BLOCK_SIZE 7 ++ [0])
  /\ setslice (repeat BLOCK_SIZE 7 ++ [0]) 0 8 0 = repeat 0 8.
Proof.
  intros Hb Hs.
  destruct brick_empty as (Ht & Hbl & Hsz).
  assert (HB : u4 BLOCK_SIZE = BLOCK_SIZE) by (apply u4_small; lia).
  split; [ | split; [ | split; [ | split ] ] ].
  - rewrite write_uncompressed_eq by assumption.
    change (Z.min (len (@nil byte)) BRICK) with (brick_total BLOCK_SIZE []).
    rewrite Ht, Hbl, Hsz. cbn [Z.to_nat firstn skipn app]. reflexivity.
  - unfold brick_blocks, BRICK_SIZE in Hbl.
    destruct (0 =? 8 * BLOCK_SIZE) eqn:E; [ apply Z.eqb_eq in E; lia | ].
    exact Hbl.
  - do 9 (destruct sizes as [ | ? sizes ]; try discriminate Hs).
    unfold setslice. rewrite HB. reflexivity.
  - do 9 (destruct sizes as [ | ? sizes ]; try discriminate Hs).
    unfold setslice, setitem. rewrite HB, Z.mod_0_l by lia. reflexivity.
  - unfold setslice. reflexivity.
Qed.

(** C3 (evaluation).  When the window holds exactly [k] blocks,
    [1 <= k <= 7], [write_uncompressed] returns [k] blocks but records 0 as
    the length of the last of them, a block of [BLOCK_SIZE] bytes. *)
Theorem write_uncompressed_exact_multiple (data buffers : list byte)
    (sizes : list Z) (k : Z) :
  len buffers = BRICK ->
  length sizes = 8%nat ->
  1 <= k <= 7 ->
  len data = k * BLOCK_SIZE ->
  exists buffers' sizes',
    write_uncompressed BLOCK_SIZE data buffers sizes
    = Ok (buffers', sizes', k * BLOCK_SIZE, k)
    /\ firstn (Z.to_nat (k * BLOCK_SIZE)) buffers' = data
    /\ nth (Z.to_nat (k - 1)) sizes' 0 = 0
    /\ Z.min BLOCK_SIZE (k * BLOCK_SIZE - (k - 1) * BLOCK_SIZE) = BLOCK_SIZE.
Proof.
  intros Hb Hs Hk Hlen.
  rewrite write_uncompressed_eq by assumption.
  assert (Ht : Z.min (len data) BRICK = k * BLOCK_SIZE)
    by (unfold BRICK_SIZE; nia).
  rewrite Ht.
  assert (Hq : (k * BLOCK_SIZE - 1) / BLOCK_SIZE = k - 1).
  { symmetry. apply Z.div_unique with (r := BLOCK_SIZE - 1); lia. }
  assert (Hbl : brick_blocks BLOCK_SIZE (k * BLOCK_SIZE) = k).
  { unfold brick_blocks, BRICK_SIZE.
    destruct (k * BLOCK_SIZE =? 8 * BLOCK_SIZE) eqn:E;
      [ apply Z.eqb_eq in E; nia | lia ]. }
  rewrite Hbl. do 2 eexists. split; [ reflexivity | ].
  split; [ | split ].
  - rewrite firstn_app, firstn_firstn, Nat.min_id.
    rewrite length_firstn.
    replace (Z.to_nat (k * BLOCK_SIZE)
             - Nat.min (Z.to_nat (k * BLOCK_SIZE)) (length data))%nat
      with 0%nat by (unfold len in *; lia).
    rewrite firstn_O, app_nil_r. apply firstn_all2. unfold len in *. lia.
  - rewrite nth_brick_sizes by lia.
    unfold BRICK_SIZE.
    destruct (k * BLOCK_SIZE =? 8 * BLOCK_SIZE) eqn:E;
      [ apply Z.eqb_eq in E; nia | ].
    rewrite Hq, Z2Nat.id, Z.ltb_irrefl, Z.eqb_refl by lia.
    apply Z.mod_mul. lia.
  - lia.
Qed.

(** X1.  What [write_uncompressed] records for every window: block [i] of
    the [blocks] valid ones gets the number of bytes it holds, except the
    last block of a partial brick that ends on a block boundary, which gets
    0; the entries after the valid blocks get 0. *)
Lemma write_uncompressed_sizes (data buffers : list byte) (sizes : list Z) :
  len buffers = BRICK ->
  length sizes = 8%nat ->
  let total := Z.min (len data) BRICK in
  exists buffers' sizes' blocks,
    write_uncompressed BLOCK_SIZE data buffers sizes
    = Ok (buffers', sizes', total, blocks)
    /\ (blocks - 1) * BLOCK_SIZE < total <= blocks * BLOCK_SIZE
    /\ forall i : nat,
         (i < 8)%nat ->
         nth i sizes' 0 =
         if Z.of_nat i <? blocks then
           if (Z.of_nat i =? blocks - 1) && (total <? BRICK)
              && (total mod BLOCK_SIZE =? 0)
           then 0
           else Z.min BLOCK_SIZE (total - Z.of_nat i * BLOCK_SIZE)
         else 0.
Proof.
  intros Hb Hs total.
  rewrite write_uncompressed_eq by assumption. fold total.
  assert (Hd := len_nonneg data).
  assert (Ht : 0 <= total <= BRICK) by (unfold total, BRICK_SIZE in *; lia).
  clearbody total.
  do 3 eexists. split; [ reflexivity | ].
  unfold brick_blocks, BRICK_SIZE in *.
  assert (Hmd := Z.div_mod (total - 1) BLOCK_SIZE ltac:(lia)).
  assert (Hmb := Z.mod_pos_bound (total - 1) BLOCK_SIZE ltac:(lia)).
  assert (Htd := Z.div_mod total BLOCK_SIZE ltac:(lia)).
  assert (Htb := Z.mod_pos_bound total BLOCK_SIZE ltac:(lia)).
  set (q := (total - 1) / BLOCK_SIZE) in *.
  set (r := (total - 1) mod BLOCK_SIZE) in *.
  set (tq := total / BLOCK_SIZE) in *.
  set (tr := total mod BLOCK_SIZE) in *.
  destruct (total =? 8 * BLOCK_SIZE) eqn:E.
  - apply Z.eqb_eq in E. split; [ lia | ].
    intros i Hi. rewrite nth_brick_sizes by assumption.
    unfold BRICK_SIZE. fold q. rewrite (proj2 (Z.eqb_eq _ _) E).
    destruct (Z.of_nat i <? 8) eqn:E8; [ | apply Z.ltb_ge in E8; lia ].
    destruct (total <? 8 * BLOCK_SIZE) eqn:El;
      [ apply Z.ltb_lt in El; lia | ].
    rewrite andb_false_r. cbn [andb]. nia.
  - apply Z.eqb_neq in E. split; [ nia | ].
    intros i Hi. rewrite nth_brick_sizes by assumption.
    unfold BRICK_SIZE. fold q tr.
    rewrite (proj2 (Z.eqb_neq _ _) E).
    replace (q + 1 - 1) with q by lia.
    destruct (total <? 8 * BLOCK_SIZE) eqn:El;
      [ | apply Z.ltb_ge in El; lia ].
    rewrite andb_true_r.
    destruct (Z.of_nat i <? q) eqn:E1.
    + apply Z.ltb_lt in E1.
      destruct (Z.of_nat i <? q + 1) eqn:E2;
        [ | apply Z.ltb_ge in E2; lia ].
      destruct (Z.of_nat i =? q) eqn:E3; [ apply Z.eqb_eq in E3; lia | ].
      cbn [andb]. nia.
    + apply Z.ltb_ge in E1.
      destruct (Z.of_nat i =? q) eqn:E3.
      * apply Z.eqb_eq in E3.
        destruct (Z.of_nat i <? q + 1) eqn:E2;
          [ | apply Z.ltb_ge in E2; lia ].
        cbn [andb].
        destruct (tr =? 0) eqn:E4.
        -- apply Z.eqb_eq in E4. exact E4.
        -- apply Z.eqb_neq in E4.
           assert (Hq : tq = q) by nia.
           nia.
      * apply Z.eqb_neq in E3.
        destruct (Z.of_nat i <? q + 1) eqn:E2;
          [ apply Z.ltb_lt in E2; lia | reflexivity ].
Qed.

(** C5.  In every run of [compress_overlapped], host-side packing or
    unpacking that follows a submission on a slot and precedes the wait for
    it works on the other slot. *)
Theorem overlapped_ownership (raw_data : list byte) (buffers : slot * slot) :
  slot_wf BLOCK_SIZE (get_slot buffers 0) ->
  slot_wf BLOCK_SIZE (get_slot buffers 1) ->
  exists m,
    compress_overlapped BLOCK_SIZE kernel eager raw_data buffers = Ok m
    /\ ownership_respected (trace m).
Proof.
  intros Hw0 Hw1.
  destruct (compress_overlapped_monitor raw_data buffers Hw0 Hw1)
    as (m & Hrun & Hmon).
  exists m. split; [ exact Hrun | ].
  exact (monitor_ownership Hmon).
Qed.

(** C6.  In every run of [compress_overlapped] the wait for a submission
    returns before any later submission starts, so operations on the same
    slot are strictly sequenced; at each point of the run at most one
    accelerator operation is outstanding, and none is left at the end. *)
Theorem overlapped_sequenced (raw_data : list byte) (buffers : slot * slot) :
  slot_wf BLOCK_SIZE (get_slot buffers 0) ->
  slot_wf BLOCK_SIZE (get_slot buffers 1) ->
  exists m,
    compress_overlapped BLOCK_SIZE kernel eager raw_data buffers = Ok m
    /\ submissions_sequenced (trace m)
    /\ one_outstanding (trace m)
    /\ outstanding (trace m) = 0.
Proof.
  intros Hw0 Hw1.
  destruct (compress_overlapped_monitor raw_data buffers Hw0 Hw1)
    as (m & Hrun & Hmon).
  exists m. split; [ exact Hrun | ].
  split; [ exact (monitor_sequenced Hmon) | ].
  split; [ exact (monitor_one_outstanding Hmon) | ].
  exact (monitor_outstanding _ _ Hmon).
Qed.

(** C1.  Under the per-block contract of the accelerator, the stream of
    [compress_overlapped] is byte for byte the stream of [compress_hw],
    whatever the buffers held before. *)
Theorem overlapped_equals_hw (raw_data : list byte) (hw_buffers : slot)
    (buffers : slot * slot) :
  slot_wf BLOCK_SIZE hw_buffers ->
  slot_wf BLOCK_SIZE (get_slot buffers 0) ->
  slot_wf BLOCK_SIZE (get_slot buffers 1) ->
  exists m_hw m_ov,
    compress_hw BLOCK_SIZE kernel raw_data hw_buffers = Ok m_hw
    /\ compress_overlapped BLOCK_SIZE kernel eager raw_data buffers = Ok m_ov
    /\ stream m_ov = stream m_hw.
Proof.
  intros Hw Hw0 Hw1.
  destruct (compress_hw_stream raw_data Hw) as (m1 & Hrun1 & Hst1).
  destruct (compress_overlapped_stream raw_data buffers Hw0 Hw1)
    as (m2 & Hrun2 & Hst2).
  exists m1, m2. rewrite Hst1, Hst2. auto.
Qed.

(** *** The frame *)

Lemma Z_of_byte_of_Z (z : Z) : Z_of_byte (byte_of_Z z) = z mod 256.
Proof.
  assert (Hm : 0 <= z mod 256 < 256) by (apply Z.mod_pos_bound; lia).
  unfold Z_of_byte, byte_of_Z.
  destruct (Byte.of_N (Z.to_N (z mod 256))) as [ b | ] eqn:E.
  - apply Byte.to_of_N in E. rewrite E. lia.
  - apply Byte.of_N_None_iff in E. lia.
Qed.

Lemma unpack_pack_I (v : Z) : 0 <= v < 2 ^ 32 -> unpack_I (pack_I v) = v.
Proof.
  intros Hv. unfold unpack_I, pack_I. rewrite !Z_of_byte_of_Z.
  change (2 ^ 16) with (2 ^ 8 * 2 ^ 8).
  change (2 ^ 24) with (2 ^ 8 * 2 ^ 8 * 2 ^ 8).
  rewrite <- !Z.div_div by lia.
  change (2 ^ 8) with 256 in *. change (2 ^ 32) with 4294967296 in *.
  Z.div_mod_to_equations. lia.
Qed.

Lemma bricks_concat :
  forall (fuel : nat) (w : list byte),
    (length w <= fuel)%nat -> concat (bricks BLOCK_SIZE fuel w) = w.
Proof.
  induction fuel as [ | fuel IH ]; intros w H.
  - destruct w; [ reflexivity | cbn in H; lia ].
  - destruct w as [ | x w ]; [ reflexivity | ].
    cbn [bricks concat]. rewrite IH.
    + apply firstn_skipn.
    + assert (HB : (0 < Z.to_nat BRICK)%nat) by (unfold BRICK_SIZE; lia).
      rewrite length_skipn. cbn [length] in *. lia.
Qed.

(** Every payload fits an output row. *)
Lemma brick_payloads_fit (b0 : slot) (w : list byte) :
  slot_wf BLOCK_SIZE b0 ->
  Forall (fun p => len p <= BLOCK_SIZE) (brick_payloads BLOCK_SIZE codec w).
Proof.
  intros Hwf. destruct (write_uncompressed_packed w Hwf) as (_ & _ & Hp).
  apply Forall_forall. intros p Hin. unfold brick_payloads in Hin.
  apply in_map_iff in Hin. destruct Hin as (i & <- & Hi). apply in_seq in Hi.
  assert (Ht := brick_total_range w).
  assert (Hr := brick_blocks_range BLOCK_SIZE_range Ht).
  assert (Hib : Z.of_nat i
                < brick_blocks BLOCK_SIZE (brick_total BLOCK_SIZE w)) by lia.
  match type of Hp with
  | packed _ ?b' _ =>
      destruct (kernel_contract b' (brick_total BLOCK_SIZE w)) as (_ & _ & Hk)
  end.
  destruct (Hk i ltac:(lia) (brick_blocks_covers BLOCK_SIZE_range i Ht Hib))
    as (Hfit & _).
  rewrite (Hp i Hib) in Hfit. exact Hfit.
Qed.

(** C9.  The stream of either compressor is the 7-byte header, then one
    record per valid block, brick after brick in input order and block
    after block inside a brick, each record a 4-byte little-endian length
    followed by that many payload bytes, then 4 zero bytes. *)
Theorem frame_layout (raw_data : list byte) (hw_buffers : slot)
    (buffers : slot * slot) :
  slot_wf BLOCK_SIZE hw_buffers ->
  slot_wf BLOCK_SIZE (get_slot buffers 0) ->
  slot_wf BLOCK_SIZE (get_slot buffers 1) ->
  let payloads :=
    flat_map (brick_payloads BLOCK_SIZE codec)
      (all_bricks BLOCK_SIZE raw_data) in
  exists m_hw m_ov,
    compress_hw BLOCK_SIZE kernel raw_data hw_buffers = Ok m_hw
    /\ compress_overlapped BLOCK_SIZE kernel eager raw_data buffers = Ok m_ov
    /\ stream m_hw = LZ4_HEADER ++ flat_map record payloads ++ END_MARK
    /\ stream m_ov = LZ4_HEADER ++ flat_map record payloads ++ END_MARK
    /\ LZ4_HEADER = [x04; x22; x4d; x18; x60; x60; x51]
    /\ END_MARK = [x00; x00; x00; x00]
    /\ concat (all_bricks BLOCK_SIZE raw_data) = raw_data
    /\ Forall (fun p => record p = pack_I (len p) ++ p
                        /\ length (pack_I (len p)) = 4%nat
                        /\ unpack_I (pack_I (len p)) = len p) payloads.
Proof.
  intros Hw Hw0 Hw1 payloads.
  destruct (compress_hw_stream raw_data Hw) as (m1 & Hrun1 & Hst1).
  destruct (compress_overlapped_stream raw_data buffers Hw0 Hw1)
    as (m2 & Hrun2 & Hst2).
  exists m1, m2. repeat (split; [ assumption || reflexivity | ]).
  split; [ apply bricks_concat; lia | ].
  apply Forall_forall. intros p Hin. unfold payloads in Hin.
  apply in_flat_map in Hin. destruct Hin as (w & _ & Hin).
  assert (Hfit := brick_payloads_fit w Hw).
  rewrite Forall_forall in Hfit. apply Hfit in Hin.
  assert (Hl := len_nonneg p).
  repeat split. apply unpack_pack_I. lia.
Qed.

(** *** A block of exactly [BLOCK_SIZE] bytes *)

Lemma one_block_payloads (raw_data : list byte) :
  len raw_data = BLOCK_SIZE ->
  flat_map (brick_payloads BLOCK_SIZE codec) (all_bricks BLOCK_SIZE raw_data)
  = [codec []].
Proof.
  intros Hlen.
  assert (Hsk : skipn (Z.to_nat BRICK) raw_data = [])
    by (apply skipn_all2; unfold len, BRICK_SIZE in *; lia).
  assert (Hb : all_bricks BLOCK_SIZE raw_data
               = [firstn (Z.to_nat BRICK) raw_data]).
  { unfold all_bricks.
    destruct raw_data as [ | x d ]; [ cbn in Hlen; lia | ].
    cbn [length bricks]. rewrite Hsk. destruct (length d); reflexivity. }
  rewrite Hb. cbn [flat_map]. rewrite app_nil_r, brick_payloads_firstn.
  assert (Ht : brick_total BLOCK_SIZE raw_data = BLOCK_SIZE)
    by (unfold brick_total, BRICK_SIZE; lia).
  assert (Hq : (BLOCK_SIZE - 1) / BLOCK_SIZE = 0)
    by (apply Z.div_small; lia).
  assert (Hne : (BLOCK_SIZE =? BRICK) = false)
    by (apply Z.eqb_neq; unfold BRICK_SIZE; lia).
  unfold brick_payloads, block_input. rewrite Ht.
  unfold brick_blocks. rewrite Hne, Hq.
  change (Z.to_nat (0 + 1)) with 1%nat. cbn [seq map].
  rewrite nth_brick_sizes by lia. rewrite Hne, Hq.
  cbn [Z.of_nat Z.ltb Z.eqb Z.compare].
  rewrite Z_mod_same_full. reflexivity.
Qed.

(** C2 (evaluation).  Inputs of exactly [BLOCK_SIZE] bytes all compress to
    the same stream, the one holding a single record for an empty block,
    so whatever the decompressor is, for some of them it does not return
    the input. *)
Theorem roundtrip_loses_block (decompress : list byte -> list byte)
    (buffers : slot * slot) :
  slot_wf BLOCK_SIZE (get_slot buffers 0) ->
  slot_wf BLOCK_SIZE (get_slot buffers 1) ->
  exists raw_data m,
    len raw_data = BLOCK_SIZE
    /\ compress_overlapped BLOCK_SIZE kernel eager raw_data buffers = Ok m
    /\ stream m = LZ4_HEADER ++ record (codec []) ++ END_MARK
    /\ decompress (stream m) <> raw_data.
Proof.
  intros Hw0 Hw1.
  set (n := Z.to_nat BLOCK_SIZE).
  assert (Hrun : forall x : byte,
             exists m,
               compress_overlapped BLOCK_SIZE kernel eager (repeat x n) buffers
               = Ok m
               /\ stream m = LZ4_HEADER ++ record (codec []) ++ END_MARK).
  { intros x.
    destruct (compress_overlapped_stream (repeat x n) buffers Hw0 Hw1)
      as (m & Hrun & Hst).
    exists m. split; [ exact Hrun | ].
    rewrite Hst, one_block_payloads.
    - cbn [flat_map]. now rewrite app_nil_r.
    - unfold len. rewrite repeat_length. subst n. lia. }
  assert (Hlen : forall x : byte, len (repeat x n) = BLOCK_SIZE)
    by (intros x; unfold len; rewrite repeat_length; subst n; lia).
  assert (Hdiff : repeat x00 n <> repeat x01 n).
  { destruct n as [ | k ] eqn:En; [ subst n; lia | ].
    cbn [repeat]. discriminate. }
  destruct (Hrun x00) as (m0 & Hrun0 & Hst0).
  destruct (Hrun x01) as (m1 & Hrun1 & Hst1).
  destruct (list_eq_dec Byte.byte_eq_dec
              (decompress (LZ4_HEADER ++ record (codec []) ++ END_MARK))
              (repeat x00 n)) as [ Heq | Hneq ].
  - exists (repeat x01 n), m1. repeat (split; [ auto | ]).
    rewrite Hst1, Heq. exact Hdiff.
  - exists (repeat x00 n), m0. repeat (split; [ auto | ]).
    rewrite Hst0. exact Hneq.
Qed.

End Pipeline.


(** ** The notebook's block size, and runs on small buffers *)

Lemma NOTEBOOK_BLOCK_SIZE_range :
  0 < NOTEBOOK_BLOCK_SIZE < 2 ^ 32 /\ 1 < NOTEBOOK_BLOCK_SIZE.
Proof. unfold NOTEBOOK_BLOCK_SIZE. lia. Qed.

Lemma zero_slot_wf : slot_wf 2 (zero_slot 2).
Proof. split; reflexivity. Defined.

Lemma overlapped_equals_hw_witness :
  exists m_hw m_ov,
    compress_hw 2 (block_kernel 2 stored) [x01; x02; x03; x04; x05]
      (zero_slot 2) = Ok m_hw
    /\ compress_overlapped 2 (block_kernel 2 stored) false
         [x01; x02; x03; x04; x05] (zero_slot 2, zero_slot 2) = Ok m_ov
    /\ stream m_ov = stream m_hw.
Proof.
  apply (@overlapped_equals_hw 2 (block_kernel 2 stored) stored false).
  - lia.
  - apply block_kernel_contract. lia.
  - exact zero_slot_wf.
  - exact zero_slot_wf.
  - exact zero_slot_wf.
Defined.

Lemma roundtrip_loses_block_witness :
  exists raw_data m,
    len raw_data = 2
    /\ compress_overlapped 2 (block_kernel 2 stored) false raw_data
         (zero_slot 2, zero_slot 2) = Ok m
    /\ stream m = LZ4_HEADER ++ record (stored []) ++ END_MARK
    /\ skipn 11 (stream m) <> raw_data.
Proof.
  apply (@roundtrip_loses_block 2 (block_kernel 2 stored) stored false).
  - lia.
  - apply block_kernel_contract. lia.
  - exact zero_slot_wf.
  - exact zero_slot_wf.
Defined.

Lemma write_uncompressed_exact_multiple_witness :
  exists buffers' sizes',
    write_uncompressed 2 [x01; x02; x03; x04] (repeat x00 16) (repeat 9 8)
    = Ok (buffers', sizes', 2 * 2, 2)
    /\ firstn (Z.to_nat (2 * 2)) buffers' = [x01; x02; x03; x04]
    /\ nth (Z.to_nat (2 - 1)) sizes' 0 = 0
    /\ Z.min 2 (2 * 2 - (2 - 1) * 2) = 2.
Proof.
  apply (@write_uncompressed_exact_multiple 2).
  - lia.
  - reflexivity.
  - reflexivity.
  - lia.
  - reflexivity.
Defined.

Lemma empty_input_runs_witness :
  compress_hw 2 (block_kernel 2 stored) [] (zero_slot 2)
  = Ok (Machine (zero_slot 2) (LZ4_HEADER ++ END_MARK) [])
  /\ exists m,
       compress_overlapped 2 (block_kernel 2 stored) true []
         (zero_slot 2, zero_slot 2) = Ok m
       /\ stream m = LZ4_HEADER ++ END_MARK
       /\ trace m =
          [ EvPack 0 0 0 (repeat 0 8); EvStart 0 0; EvWait 0; EvUnpack 0 0 ]
       /\ submissions (trace m) = 1%nat.
Proof.
  apply (@empty_input_runs 2 (block_kernel 2 stored) true).
  - lia.
  - exact zero_slot_wf.
Defined.

Lemma overlapped_ownership_witness :
  exists m,
    compress_overlapped 2 (block_kernel 2 stored) false
      (repeat x07 40) (zero_slot 2, zero_slot 2) = Ok m
    /\ ownership_respected (trace m).
Proof.
  apply (@overlapped_ownership 2 (block_kernel 2 stored) false).
  - lia.
  - exact zero_slot_wf.
  - exact zero_slot_wf.
Defined.

Lemma overlapped_sequenced_witness :
  exists m,
    compress_overlapped 2 (block_kernel 2 stored) true
      (repeat x07 40) (zero_slot 2, zero_slot 2) = Ok m
    /\ submissions_sequenced (trace m)
    /\ one_outstanding (trace m)
    /\ outstanding (trace m) = 0.
Proof.
  apply (@overlapped_sequenced 2 (block_kernel 2 stored) true).
  - lia.
  - exact zero_slot_wf.
  - exact zero_slot_wf.
Defined.

Lemma one_byte_over_two_bricks_witness :
  len (repeat x07 17) = 8 * 2 + 1
  /\ exists m_hw m_ov,
       compress_hw 2 (block_kernel 2 stored) (repeat x07 17) (zero_slot 2)
       = Ok m_hw
       /\ compress_overlapped 2 (block_kernel 2 stored) false (repeat x07 17)
            (zero_slot 2, zero_slot 2) = Ok m_ov
       /\ trace m_hw =
          [ EvPack 0 (8 * 2) 8 (repeat 2 8);
            EvCall 0 (8 * 2);
            EvUnpack 0 8;
            EvPack 0 1 1 [1; 0; 0; 0; 0; 0; 0; 0];
            EvCall 0 1;
            EvUnpack 0 1 ]
       /\ trace m_ov =
          [ EvPack 0 (8 * 2) 8 (repeat 2 8);
            EvStart 0 (8 * 2);
            EvPack 1 1 1 [1; 0; 0; 0; 0; 0; 0; 0];
            EvWait 0;
            EvStart 1 1;
            EvUnpack 0 8;
            EvWait 1;
            EvUnpack 1 1 ]
       /\ submissions (trace m_hw) = 2%nat
       /\ submissions (trace m_ov) = 2%nat.
Proof.
  split; [ reflexivity | ].
  apply (@one_byte_over_two_bricks 2 (block_kernel 2 stored) false).
  - lia.
  - exact zero_slot_wf.
  - exact zero_slot_wf.
  - exact zero_slot_wf.
  - lia.
  - reflexivity.
Defined.

Lemma exact_brick_one_submission_witness :
  len (repeat x07 16) = 8 * 2
  /\ exists m_hw m_ov,
       compress_hw 2 (block_kernel 2 stored) (repeat x07 16) (zero_slot 2)
       = Ok m_hw
       /\ compress_overlapped 2 (block_kernel 2 stored) true (repeat x07 16)
            (zero_slot 2, zero_slot 2) = Ok m_ov
       /\ trace m_hw =
          [ EvPack 0 (8 * 2) 8 (repeat 2 8);
            EvCall 0 (8 * 2);
            EvUnpack 0 8 ]
       /\ trace m_ov =
          [ EvPack 0 (8 * 2) 8 (repeat 2 8);
            EvStart 0 (8 * 2);
            EvWait 0;
            EvUnpack 0 8 ]
       /\ submissions (trace m_hw) = 1%nat
       /\ submissions (trace m_ov) = 1%nat.
Proof.
  split; [ reflexivity | ].
  apply (@exact_brick_one_submission 2 (block_kernel 2 stored) true).
  - lia.
  - exact zero_slot_wf.
  - exact zero_slot_wf.
  - exact zero_slot_wf.
  - reflexivity.
Defined.

Lemma frame_layout_witness :
  let payloads :=
    flat_map (brick_payloads 2 stored) (all_bricks 2 (repeat x07 19)) in
  exists m_hw m_ov,
    compress_hw 2 (block_kernel 2 stored) (repeat x07 19) (zero_slot 2)
    = Ok m_hw
    /\ compress_overlapped 2 (block_kernel 2 stored) false (repeat x07 19)
         (zero_slot 2, zero_slot 2) = Ok m_ov
    /\ stream m_hw = LZ4_HEADER ++ flat_map record payloads ++ END_MARK
    /\ stream m_ov = LZ4_HEADER ++ flat_map record payloads ++ END_MARK
    /\ LZ4_HEADER = [x04; x22; x4d; x18; x60; x60; x51]
    /\ END_MARK = [x00; x00; x00; x00]
    /\ concat (all_bricks 2 (repeat x07 19)) = repeat x07 19
    /\ Forall (fun p => record p = pack_I (len p) ++ p
                        /\ length (pack_I (len p)) = 4%nat
                        /\ unpack_I (pack_I (len p)) = len p) payloads.
Proof.
  apply (@frame_layout 2 (block_kernel 2 stored) stored false).
  - lia.
  - apply block_kernel_contract. lia.
  - exact zero_slot_wf.
  - exact zero_slot_wf.
  - exact zero_slot_wf.
Defined.

Lemma write_uncompressed_empty_window_witness :
  write_uncompressed 2 [] (repeat x00 16) [5; 6; 7; 8; 9; 10; 11; 12]
  = Ok (repeat x00 16, repeat 0 8, 0, 0)
  /\ (0 - 1) / 2 + 1 = 0
  /\ setslice [5; 6; 7; 8; 9; 10; 11; 12] 0 (0 - 1) 2
     = repeat 2 7 ++ [nth 7 [5; 6; 7; 8; 9; 10; 11; 12] 0]
  /\ setitem (setslice [5; 6; 7; 8; 9; 10; 11; 12] 0 (0 - 1) 2) (0 - 1)
       (0 mod 2)
     = Ok (repeat 2 7 ++ [0])
  /\ setslice (repeat 2 7 ++ [0]) 0 8 0 = repeat 0 8.
Proof.
  apply (@write_uncompressed_empty_window 2).
  - lia.
  - reflexivity.
  - reflexivity.
Defined.

(** ** The model at work on small inputs *)

(** A window of exactly one block ([BLOCK_SIZE = 2], two bytes): one block
    is reported and its recorded size is 0. *)
Example write_one_full_block :
  write_uncompressed 2 [x01; x02] (repeat x00 16) (repeat 9 8)
  = Ok ([x01; x02] ++ repeat x00 14, [0; 0; 0; 0; 0; 0; 0; 0], 2, 1).
Proof. reflexivity. Qed.

(** The two bytes do not reach the stream: after the header comes the
    record of an empty block, then the end mark. *)
Example compress_one_full_block :
  match compress_overlapped 2 (block_kernel 2 stored) false [x01; x02]
          (zero_slot 2, zero_slot 2) with
  | Ok m => stream m = LZ4_HEADER ++ [x00; x00; x00; x00] ++ END_MARK
  | Err _ => False
  end.
Proof. reflexivity. Qed.

(** Three bytes, one block and a half: both sizes are right and the input
    can be read back from the two records. *)
Example compress_three_bytes :
  match compress_overlapped 2 (block_kernel 2 stored) true [x01; x02; x03]
          (zero_slot 2, zero_slot 2) with
  | Ok m =>
      stream m
      = LZ4_HEADER ++ [x02; x00; x00; x00; x01; x02]
        ++ [x01; x00; x00; x00; x03] ++ END_MARK
  | Err _ => False
  end.
Proof. reflexivity. Qed.

(** The slot discipline is not met by every event list: unpacking the slot
    the accelerator still owns breaks ownership, and a second start before
    the wait leaves two operations outstanding. *)
Example ownership_can_fail :
  ~ ownership_respected [EvStart 0 4; EvUnpack 0 1; EvWait 0].
Proof.
  intros H.
  specialize (H [] 0 4 [] (EvUnpack 0 1) [EvWait 0] 0 eq_refl).
  cbn in H. assert (E : 0 = 1) by (apply H; [ tauto | reflexivity ]).
  discriminate E.
Qed.

Example outstanding_can_fail :
  ~ one_outstanding [EvStart 0 4; EvStart 1 4; EvWait 0; EvWait 1]
  /\ ~ submissions_sequenced [EvStart 0 4; EvStart 1 4; EvWait 0; EvWait 1].
Proof.
  split; intros H.
  - specialize (H [EvStart 0 4; EvStart 1 4] [EvWait 0; EvWait 1] eq_refl).
    cbn in H. lia.
  - exact (H [] 0 4 [] 1 4 [EvWait 0; EvWait 1] eq_refl).
Qed.

(** * Further properties of the four functions *)

(** ** [read_compressed] *)



(** ** [write_uncompressed] *)

Section Packing.

Variable BLOCK_SIZE : Z.
Hypothesis BLOCK_SIZE_range : 0 < BLOCK_SIZE < 2 ^ 32.

Abbreviation BRICK := (BRICK_SIZE BLOCK_SIZE).

Lemma packed_buffer_parts (data buffers : list byte) (total : Z) :
  len buffers = BRICK ->
  0 <= total <= BRICK ->
  total <= len data ->
  let buffers' :=
    firstn (Z.to_nat total) data ++ skipn (Z.to_nat total) buffers in
  len buffers' = BRICK
  /\ firstn (Z.to_nat total) buffers' = firstn (Z.to_nat total) data
  /\ skipn (Z.to_nat total) buffers' = skipn (Z.to_nat total) buffers.
Proof.
  intros Hb Ht Hd buffers'. subst buffers'.
  assert (Hl : length (firstn (Z.to_nat total) data) = Z.to_nat total)
    by (rewrite length_firstn; unfold len in *; lia).
  split; [ | split ].
  - rewrite len_app. unfold len in *. rewrite Hl, length_skipn. lia.
  - rewrite firstn_app, Hl, Nat.sub_diag, firstn_O, app_nil_r.
    apply firstn_all2. lia.
  - rewrite skipn_app, Hl, Nat.sub_diag. cbn [skipn].
    rewrite skipn_all2 by lia. reflexivity.
Qed.

(** X2.  [write_uncompressed] takes [min (len data) BRICK_SIZE] bytes: the
    buffer keeps its size, starts with those bytes, and from there on holds
    what it held before. *)
Theorem write_uncompressed_buffer (data buffers : list byte)
    (sizes : list Z) :
  len buffers = BRICK ->
  length sizes = 8%nat ->
  let total := Z.min (len data) BRICK in
  exists buffers' sizes' blocks,
    write_uncompressed BLOCK_SIZE data buffers sizes
    = Ok (buffers', sizes', total, blocks)
    /\ len buffers' = BRICK
    /\ firstn (Z.to_nat total) buffers' = firstn (Z.to_nat total) data
    /\ skipn (Z.to_nat total) buffers' = skipn (Z.to_nat total) buffers.
Proof.
  intros Hb Hs total.
  rewrite write_uncompressed_eq by assumption. fold total.
  assert (Hd := len_nonneg data).
  assert (Ht : 0 <= total <= BRICK /\ total <= len data)
    by (unfold total, BRICK_SIZE in *; lia).
  clearbody total.
  do 3 eexists. split; [ reflexivity | ].
  apply packed_buffer_parts; lia.
Qed.

(** X3.  All 8 sizes are overwritten: the result does not depend on the
    sizes held before, and packing the same window again changes
    nothing. *)
Theorem write_uncompressed_again (data buffers : list byte)
    (sizes sizes2 : list Z) :
  len buffers = BRICK ->
  length sizes = 8%nat ->
  length sizes2 = 8%nat ->
  exists buffers' sizes' total blocks,
    write_uncompressed BLOCK_SIZE data buffers sizes
    = Ok (buffers', sizes', total, blocks)
    /\ write_uncompressed BLOCK_SIZE data buffers sizes2
       = Ok (buffers', sizes', total, blocks)
    /\ write_uncompressed BLOCK_SIZE data buffers' sizes'
       = Ok (buffers', sizes', total, blocks).
Proof.
  intros Hb Hs Hs2.
  assert (Hd := len_nonneg data).
  destruct (@packed_buffer_parts data buffers (Z.min (len data) BRICK) Hb)
    as (Hb' & _ & Hk); [ unfold BRICK_SIZE in *; lia | lia | ].
  rewrite !write_uncompressed_eq
    by (assumption || apply brick_sizes_length).
  cbv zeta.
  do 4 eexists. split; [ reflexivity | ]. split; [ reflexivity | ].
  rewrite write_uncompressed_eq
    by (assumption || apply brick_sizes_length).
  cbv zeta. rewrite Hk. reflexivity.
Qed.

End Packing.

(** ** When the accelerator writes its results *)

Section Timing.

Variable BLOCK_SIZE : Z.
Variable kernel : accelerator.

Lemma compress_overlapped_loop_timing (view : list byte) :
  forall (fuel : nat) (active offset previous_blocks brick_size blocks : Z)
         (m : machine (slot * slot)),
    active = 0 \/ active = 1 ->
    match
      compress_overlapped_loop BLOCK_SIZE kernel true fuel view active offset
        previous_blocks brick_size blocks m,
      compress_overlapped_loop BLOCK_SIZE kernel false fuel view active offset
        previous_blocks brick_size blocks m
    with
    | Ok (a1, pb1, wh1, m1), Ok (a2, pb2, wh2, m2) =>
        a1 = a2 /\ pb1 = pb2 /\ wh1 = wh2
        /\ stream m1 = stream m2 /\ trace m1 = trace m2
        /\ wait kernel true (mem m1) wh1 = wait kernel false (mem m2) wh2
    | Err e1, Err e2 => e1 = e2
    | _, _ => False
    end.
Proof.
  induction fuel as [ | fuel IH ];
    intros active offset pb brick_size blocks m Ha; [ reflexivity | ].
  cbn [compress_overlapped_loop].
  rewrite !start_other by assumption.
  destruct (if negb (pb =? 0)
            then
              (read_compressed (stream m)
                 (out_buffers (get_slot (mem m) (Z.lxor active 1)))
                 (compressed_size (get_slot (mem m) (Z.lxor active 1))) pb,
               (trace m ++ [EvStart active brick_size])
               ++ [EvUnpack (Z.lxor active 1) pb])
            else (stream m, trace m ++ [EvStart active brick_size]))
    as [st tr].
  destruct (offset + brick_size <? len view).
  - destruct (write_uncompressed BLOCK_SIZE
                (getslice_from view (offset + brick_size))
                (in_buffers (get_slot (mem m) (Z.lxor active 1)))
                (uncompressed_size (get_slot (mem m) (Z.lxor active 1))))
      as [ [[[buffers sizes] total] n] | e ]; cbn [bind]; [ | reflexivity ].
    rewrite !wait_pack_start by assumption.
    apply IH. destruct Ha as [-> | ->]; cbn; auto.
  - cbn [mem stream trace]. repeat split.
Qed.

(** X5.  The result of [compress_overlapped] (the stream, the events and the
    buffers left behind, or the error) is the same whether the accelerator
    writes its results as soon as it is started or only when the wait
    returns. *)
Theorem compress_overlapped_timing (raw_data : list byte)
    (buffers : slot * slot) :
  compress_overlapped BLOCK_SIZE kernel true raw_data buffers
  = compress_overlapped BLOCK_SIZE kernel false raw_data buffers.
Proof.
  unfold compress_overlapped.
  destruct (write_uncompressed BLOCK_SIZE (getslice_from raw_data 0)
              (in_buffers (get_slot buffers 0))
              (uncompressed_size (get_slot buffers 0)))
    as [ [[[inb sizes] total] n] | e ]; cbn [bind]; [ | reflexivity ].
  match goal with
  | |- context [ compress_overlapped_loop _ _ true ?f ?v ?a ?o ?pb ?bs ?bl
                   ?m ] =>
      assert (H := @compress_overlapped_loop_timing v f a o pb bs bl m
                     (or_introl eq_refl))
  end.
  destruct (compress_overlapped_loop BLOCK_SIZE kernel true _ _ _ _ _ _ _ _)
    as [ [[[a1 pb1] wh1] m1] | e1 ];
    destruct (compress_overlapped_loop BLOCK_SIZE kernel false _ _ _ _ _ _ _ _)
      as [ [[[a2 pb2] wh2] m2] | e2 ];
    try contradiction.
  - destruct H as (<- & <- & <- & Hst & Htr & Hw).
    cbn [bind]. rewrite Hst, Htr, Hw. reflexivity.
  - cbn [bind]. congruence.
Qed.

End Timing.

(** ** The schedule of whole runs *)

Section Runs.

Variable BLOCK_SIZE : Z.
Variable kernel : accelerator.
Variable eager : bool.
Hypothesis BLOCK_SIZE_range : 0 < BLOCK_SIZE < 2 ^ 32.

Abbreviation BRICK := (BRICK_SIZE BLOCK_SIZE).

Lemma len_firstn_brick (w : list byte) :
  len (firstn (Z.to_nat BRICK) w) = brick_total BLOCK_SIZE w.
Proof.
  assert (HB : 0 < BRICK) by (unfold BRICK_SIZE; lia).
  unfold brick_total, len. rewrite length_firstn. lia.
Qed.

Lemma all_bricks_nil : all_bricks BLOCK_SIZE [] = [].
Proof. reflexivity. Qed.

Lemma all_bricks_cons (w : list byte) :
  w <> [] ->
  all_bricks BLOCK_SIZE w
  = firstn (Z.to_nat BRICK) w
    :: all_bricks BLOCK_SIZE (skipn (Z.to_nat BRICK) w).
Proof.
  intros Hw. unfold all_bricks.
  destruct w as [ | x w ]; [ congruence | ].
  cbn [length bricks]. f_equal.
  apply (bricks_stable BLOCK_SIZE_range).
  - rewrite length_skipn. cbn [length].
    assert (0 < BRICK) by (unfold BRICK_SIZE; lia). lia.
  - lia.
Qed.

Lemma bricks_all (fuel : nat) (w : list byte) :
  (length w <= fuel)%nat -> bricks BLOCK_SIZE fuel w = all_bricks BLOCK_SIZE w.
Proof.
  intros H. apply (bricks_stable BLOCK_SIZE_range); [ exact H | lia ].
Qed.

(** Every brick holds at least one byte and at most [BRICK_SIZE]. *)
Lemma all_bricks_sizes (w : list byte) :
  Forall (fun b => 0 < len b <= BRICK) (all_bricks BLOCK_SIZE w).
Proof.
  assert (HB : 0 < BRICK) by (unfold BRICK_SIZE; lia).
  unfold all_bricks. remember (length w) as fuel eqn:Ef.
  assert (Hf : (length w <= fuel)%nat) by lia. clear Ef.
  revert w Hf. induction fuel as [ | fuel IH ]; intros w Hf; [ constructor | ].
  destruct w as [ | x w ]; [ constructor | ].
  cbn [bricks]. constructor.
  - rewrite len_firstn_brick. unfold brick_total, len. cbn [length]. lia.
  - apply IH. rewrite length_skipn. cbn [length] in *. lia.
Qed.

(** The number of bricks is [len w] divided by [BRICK_SIZE], rounded up. *)
Lemma all_bricks_length (w : list byte) :
  Z.of_nat (length (all_bricks BLOCK_SIZE w)) = (len w + BRICK - 1) / BRICK.
Proof.
  assert (HB : 0 < BRICK) by (unfold BRICK_SIZE; lia).
  unfold all_bricks. remember (length w) as fuel eqn:Ef.
  assert (Hf : (length w <= fuel)%nat) by lia. clear Ef.
  revert w Hf. induction fuel as [ | fuel IH ]; intros w Hf.
  - destruct w; [ | cbn in Hf; lia ]. cbn [bricks length].
    change (len (@nil byte)) with 0. symmetry. apply Z.div_small. lia.
  - destruct w as [ | x w ].
    + cbn [bricks length]. change (len (@nil byte)) with 0.
      symmetry. apply Z.div_small. lia.
    + cbn [bricks]. cbn [length]. rewrite Nat2Z.inj_succ, IH
        by (rewrite length_skipn; cbn [length] in *; lia).
      unfold len. rewrite length_skipn.
      set (n := length (x :: w)).
      assert (Hn : (0 < n)%nat) by (unfold n; cbn; lia).
      destruct (Z.le_gt_cases BRICK (Z.of_nat n)) as [Hge | Hlt].
      * replace (Z.of_nat (n - Z.to_nat BRICK) + BRICK - 1)
          with (Z.of_nat n - 1) by lia.
        replace (Z.of_nat n + BRICK - 1) with (Z.of_nat n - 1 + 1 * BRICK)
          by lia.
        rewrite Z.div_add by lia. lia.
      * replace (Z.of_nat (n - Z.to_nat BRICK)) with 0 by lia.
        rewrite (Z.div_small (0 + BRICK - 1)) by lia.
        replace (Z.of_nat n + BRICK - 1) with (Z.of_nat n - 1 + 1 * BRICK)
          by lia.
        rewrite Z.div_add, Z.div_small by lia. lia.
Qed.

(** *** [compress_hw] *)

Lemma compress_hw_loop_trace (view : list byte) :
  forall (fuel : nat) (offset : Z) (m : machine slot),
    0 <= offset ->
    (length (skipn (Z.to_nat offset) view) <= fuel)%nat ->
    slot_wf BLOCK_SIZE (mem m) ->
    exists m',
      compress_hw_loop BLOCK_SIZE kernel fuel view offset m = Ok m'
      /\ trace m' =
         trace m
         ++ flat_map (brick_events BLOCK_SIZE)
              (map (fun b => len b)
                 (all_bricks BLOCK_SIZE (skipn (Z.to_nat offset) view))).
Proof.
  induction fuel as [ | fuel IH ]; intros offset m Ho Hf Hwf.
  - exists m. cbn [compress_hw_loop].
    rewrite window_test by assumption.
    destruct (skipn (Z.to_nat offset) view); [ | cbn in Hf; lia ].
    cbn. rewrite app_nil_r. auto.
  - cbn [compress_hw_loop]. rewrite window_test by assumption.
    remember (skipn (Z.to_nat offset) view) as w eqn:Ew.
    destruct w as [ | x w' ].
    + exists m. cbn. rewrite app_nil_r. auto.
    + change (len (x :: w') =? 0) with false. cbn [negb].
      rewrite getslice_suffix by assumption. rewrite <- Ew.
      destruct (write_uncompressed_packed BLOCK_SIZE_range (x :: w') Hwf)
        as (Hw & Hwf' & _).
      rewrite Hw. cbn [bind].
      cbn [with_input in_buffers uncompressed_size out_buffers compressed_size]
        in *.
      match goal with
      | |- context [ compress_hw_loop _ _ fuel view ?o ?m1 ] =>
          destruct (IH o m1) as (m' & Hrun & Htr)
      end.
      * assert (Ht := brick_total_range BLOCK_SIZE_range (x :: w')). lia.
      * rewrite Ew, (skipn_window BLOCK_SIZE_range) by assumption.
        rewrite <- Ew.
        rewrite length_skipn. cbn [length] in *.
        assert (0 < BRICK) by (unfold BRICK_SIZE; lia). lia.
      * cbn [mem]. apply run_kernel_wf; assumption.
      * exists m'. split; [ exact Hrun | ].
        rewrite Htr. cbn [trace].
        rewrite Ew, (skipn_window BLOCK_SIZE_range) by assumption.
        rewrite <- Ew.
        rewrite (@all_bricks_cons (x :: w')) by discriminate.
        cbn [map flat_map]. rewrite len_firstn_brick.
        unfold brick_events at 2. cbn [app].
        rewrite <- !app_assoc. reflexivity.
Qed.

Lemma kernel_sizes_brick_events (l : list Z) :
  kernel_sizes (flat_map (brick_events BLOCK_SIZE) l) = l.
Proof.
  induction l as [ | n l IH ]; [ reflexivity | ].
  cbn [flat_map]. unfold kernel_sizes in *. rewrite flat_map_app, IH.
  reflexivity.
Qed.

Lemma submissions_kernel_sizes (t : list event) :
  submissions t = length (kernel_sizes t).
Proof.
  induction t as [ | e t IH ]; [ reflexivity | ].
  unfold kernel_sizes in *. cbn [flat_map submissions].
  rewrite length_app, <- IH. destruct e; reflexivity.
Qed.

Lemma compress_hw_events (raw_data : list byte) (buffers : slot) :
  slot_wf BLOCK_SIZE buffers ->
  exists m,
    compress_hw BLOCK_SIZE kernel raw_data buffers = Ok m
    /\ trace m =
       flat_map (brick_events BLOCK_SIZE)
         (map (fun b => len b) (all_bricks BLOCK_SIZE raw_data)).
Proof.
  intros Hwf. unfold compress_hw.
  destruct (@compress_hw_loop_trace raw_data (S (length raw_data)) 0
              (Machine buffers LZ4_HEADER []))
    as (m & Hrun & Htr); [ lia | cbn [Z.to_nat skipn]; lia | exact Hwf | ].
  rewrite Hrun. cbn [bind]. eexists. split; [ reflexivity | ].
  cbn [trace Z.to_nat skipn app] in *. exact Htr.
Qed.

(** X6.  [compress_hw] handles the bricks of the input one after the other:
    pack, call, unpack for each.  The kernel is called once per brick, that
    is [len raw_data] divided by [BRICK_SIZE] rounded up times, never on an
    empty brick, and every byte of the input is in exactly one of the
    bricks. *)
Theorem compress_hw_schedule (raw_data : list byte) (buffers : slot) :
  slot_wf BLOCK_SIZE buffers ->
  exists m,
    compress_hw BLOCK_SIZE kernel raw_data buffers = Ok m
    /\ trace m =
       flat_map (brick_events BLOCK_SIZE)
         (map (fun b => len b) (all_bricks BLOCK_SIZE raw_data))
    /\ kernel_sizes (trace m)
       = map (fun b => len b) (all_bricks BLOCK_SIZE raw_data)
    /\ Z.of_nat (submissions (trace m)) = (len raw_data + BRICK - 1) / BRICK
    /\ Forall (fun n => 0 < n <= BRICK) (kernel_sizes (trace m))
    /\ concat (all_bricks BLOCK_SIZE raw_data) = raw_data.
Proof.
  intros Hwf.
  destruct (compress_hw_events raw_data Hwf) as (m & Hrun & Htr).
  exists m. split; [ exact Hrun | ]. rewrite Htr.
  split; [ reflexivity | ].
  rewrite submissions_kernel_sizes, kernel_sizes_brick_events, length_map.
  split; [ reflexivity | ]. split; [ apply all_bricks_length | ].
  split.
  - apply Forall_map. apply all_bricks_sizes.
  - apply (bricks_concat BLOCK_SIZE_range). lia.
Qed.

(** *** [compress_overlapped] *)

Ltac pair_slots :=
  cbn [fst snd] in *;
  rewrite ?lxor_0_1, ?lxor_1_1, ?get_slot_0, ?get_slot_1, ?set_slot_0,
    ?set_slot_1 in *;
  cbn [fst snd] in *.

Lemma compress_overlapped_loop_trace (view : list byte) :
  forall (fuel : nat) (active offset previous_blocks : Z)
         (m : machine (slot * slot)),
    let w := skipn (Z.to_nat offset) view in
    0 <= offset ->
    active = 0 \/ active = 1 ->
    (length (skipn (Z.to_nat (offset + brick_total BLOCK_SIZE w)) view)
     < fuel)%nat ->
    slot_wf BLOCK_SIZE (get_slot (mem m) 0) ->
    slot_wf BLOCK_SIZE (get_slot (mem m) 1) ->
    exists active' previous_blocks' wh m',
      compress_overlapped_loop BLOCK_SIZE kernel eager fuel view active offset
        previous_blocks (brick_total BLOCK_SIZE w)
        (brick_blocks BLOCK_SIZE (brick_total BLOCK_SIZE w)) m
      = Ok (active', previous_blocks', wh, m')
      /\ (trace m' ++ [EvWait (fst wh)])
         ++ [EvUnpack (Z.lxor active' 1) previous_blocks']
         = trace m
           ++ pipeline_events BLOCK_SIZE active previous_blocks
                (brick_total BLOCK_SIZE w)
                (map (fun b => len b)
                   (all_bricks BLOCK_SIZE (skipn (Z.to_nat BRICK) w))).
Proof.
  induction fuel as [ | fuel IH ];
    intros active offset pb m w Ho Ha Hf Hw0 Hw1; [ lia | ].
  cbn [compress_overlapped_loop]. rewrite !start_other by assumption.
  assert (Ht := brick_total_range BLOCK_SIZE_range w).
  assert (Ha' : Z.lxor active 1 = 0 \/ Z.lxor active 1 = 1)
    by (destruct Ha as [-> | ->]; cbn; auto).
  assert (Haa : Z.lxor (Z.lxor active 1) 1 = active)
    by (destruct Ha as [-> | ->]; reflexivity).
  assert (Hwa : slot_wf BLOCK_SIZE (get_slot (mem m) (Z.lxor active 1)))
    by (destruct Ha' as [-> | ->]; assumption).
  assert (Hnext : skipn (Z.to_nat (offset + brick_total BLOCK_SIZE w)) view
                  = skipn (Z.to_nat BRICK) w)
    by (apply (skipn_window BLOCK_SIZE_range); assumption).
  set (w' := skipn (Z.to_nat BRICK) w) in *.
  set (opt := if pb =? 0 then []
              else [EvUnpack (Z.lxor active 1) pb]).
  match goal with
  | |- context [ let '(st, tr) := ?c in _ ] =>
      assert (Hc : exists st,
                 c = (st, (trace m
                           ++ [EvStart active (brick_total BLOCK_SIZE w)])
                          ++ opt))
  end.
  { unfold opt. destruct (pb =? 0); cbn [negb]; eexists;
      rewrite ?app_nil_r; reflexivity. }
  destruct Hc as (st & ->).
  rewrite window_test by lia. rewrite Hnext.
  destruct w' as [ | x w'' ] eqn:Ew'.
  - change (len (@nil byte) =? 0) with true. cbn [negb].
    do 4 eexists. split; [ reflexivity | ].
    cbn [trace fst map pipeline_events]. fold opt. rewrite Haa.
    rewrite <- !app_assoc. reflexivity.
  - change (len (x :: w'') =? 0) with false. cbn [negb].
    rewrite getslice_suffix by lia. rewrite Hnext. rewrite <- Ew' in *.
    destruct (write_uncompressed_packed BLOCK_SIZE_range w' Hwa)
      as (Hwr & Hwf' & _).
    cbn [with_input in_buffers uncompressed_size out_buffers compressed_size]
      in Hwr.
    rewrite Hwr. cbn [bind]. rewrite wait_pack_start by assumption.
    assert (Ht' := brick_total_range BLOCK_SIZE_range w').
    match goal with
    | |- context [ compress_overlapped_loop _ _ _ fuel view _ ?o ?pb1 _ _
                     ?m1 ] =>
        destruct (IH (Z.lxor active 1) o pb1 m1)
          as (a2 & pb2 & wh2 & m2 & Hrun & Htr)
    end.
    + lia.
    + exact Ha'.
    + rewrite Hnext.
      unfold w' at 1. fold w'.
      replace (offset + brick_total BLOCK_SIZE w
               + brick_total BLOCK_SIZE w')
        with (offset + brick_total BLOCK_SIZE w
              + brick_total BLOCK_SIZE
                  (skipn (Z.to_nat (offset + brick_total BLOCK_SIZE w)) view))
        by (rewrite Hnext; reflexivity).
      rewrite (skipn_window BLOCK_SIZE_range) by lia. rewrite Hnext.
      rewrite length_skipn. rewrite Hnext in Hf.
      assert (0 < BRICK) by (unfold BRICK_SIZE; lia).
      rewrite Ew' in *. cbn [length] in *. lia.
    + cbn [mem]. destruct Ha as [-> | ->]; pair_slots.
      * apply run_kernel_wf; assumption.
      * assumption.
    + cbn [mem]. destruct Ha as [-> | ->]; pair_slots.
      * assumption.
      * apply run_kernel_wf; assumption.
    + rewrite Hnext in Hrun, Htr. cbv zeta in Hrun.
      exists a2, pb2, wh2, m2. split; [ exact Hrun | ].
      rewrite Htr. cbn [trace fst].
      rewrite (@all_bricks_cons w') by (rewrite Ew'; discriminate).
      cbn [map pipeline_events]. fold opt. rewrite len_firstn_brick.
      rewrite <- !app_assoc. reflexivity.
Qed.

Lemma kernel_sizes_pipeline (rest : list Z) :
  forall active pb current : Z,
    kernel_sizes (pipeline_events BLOCK_SIZE active pb current rest)
    = current :: rest.
Proof.
  induction rest as [ | next rest IH ]; intros active pb current;
    cbn [pipeline_events]; unfold kernel_sizes in *;
    cbn [flat_map app]; rewrite flat_map_app; destruct (pb =? 0);
    cbn [flat_map app]; rewrite ?IH; reflexivity.
Qed.

Lemma start_slots_pipeline (rest : list Z) :
  forall active pb current : Z,
    start_slots (pipeline_events BLOCK_SIZE active pb current rest)
    = alternate active (S (length rest)).
Proof.
  induction rest as [ | next rest IH ]; intros active pb current;
    cbn [pipeline_events length alternate]; unfold start_slots in *;
    cbn [flat_map app]; rewrite flat_map_app; destruct (pb =? 0);
    cbn [flat_map app]; rewrite ?IH; reflexivity.
Qed.

Lemma brick_blocks_pos (n : Z) : 0 < n -> 0 < brick_blocks BLOCK_SIZE n.
Proof.
  intros Hn. unfold brick_blocks.
  destruct (n =? BRICK); [ lia | ].
  assert (0 <= (n - 1) / BLOCK_SIZE) by (apply Z.div_pos; lia). lia.
Qed.

Lemma unpacked_blocks_pipeline (rest : list Z) :
  forall active pb current : Z,
    rest = [] \/ 0 < current ->
    Forall (fun n => 0 < n) rest ->
    unpacked_blocks (pipeline_events BLOCK_SIZE active pb current rest)
    = (if pb =? 0 then [] else [pb])
      ++ map (brick_blocks BLOCK_SIZE) (current :: rest).
Proof.
  induction rest as [ | next rest IH ]; intros active pb current Hc Hr;
    cbn [pipeline_events]; unfold unpacked_blocks in *;
    cbn [flat_map app]; rewrite flat_map_app.
  - destruct (pb =? 0); reflexivity.
  - destruct Hc as [Hc | Hc]; [ discriminate Hc | ].
    inversion Hr as [ | ? ? Hn Hrest ]; subst.
    cbn [flat_map app]. rewrite IH by (auto).
    assert (Hb := brick_blocks_pos Hc).
    destruct (brick_blocks BLOCK_SIZE current =? 0) eqn:E;
      [ apply Z.eqb_eq in E; lia | ].
    destruct (pb =? 0); reflexivity.
Qed.

Lemma unpacked_blocks_brick_events (l : list Z) :
  unpacked_blocks (flat_map (brick_events BLOCK_SIZE) l)
  = map (brick_blocks BLOCK_SIZE) l.
Proof.
  induction l as [ | n l IH ]; [ reflexivity | ].
  cbn [flat_map map]. unfold unpacked_blocks in *. rewrite flat_map_app, IH.
  reflexivity.
Qed.

Lemma alternate_length (n : nat) : forall a, length (alternate a n) = n.
Proof. induction n as [ | n IH ]; intros a; cbn; [ | rewrite IH ]; auto. Qed.

Lemma compress_overlapped_events (raw_data : list byte)
    (buffers : slot * slot) :
  slot_wf BLOCK_SIZE (get_slot buffers 0) ->
  slot_wf BLOCK_SIZE (get_slot buffers 1) ->
  let first := brick_total BLOCK_SIZE raw_data in
  let rest :=
    map (fun b => len b)
      (all_bricks BLOCK_SIZE (skipn (Z.to_nat BRICK) raw_data)) in
  exists m,
    compress_overlapped BLOCK_SIZE kernel eager raw_data buffers = Ok m
    /\ trace m =
       EvPack 0 first (brick_blocks BLOCK_SIZE first)
         (brick_sizes BLOCK_SIZE first)
       :: pipeline_events BLOCK_SIZE 0 0 first rest.
Proof.
  intros Hw0 Hw1 first rest. unfold compress_overlapped.
  destruct (first_pack BLOCK_SIZE_range raw_data buffers Hw0)
    as (b & Hw & Hb & Hwf & _).
  rewrite Hw. cbn [bind]. rewrite Hb. clear Hw Hb. fold first.
  assert (Ht := brick_total_range BLOCK_SIZE_range raw_data).
  destruct (@compress_overlapped_loop_trace raw_data (S (length raw_data))
              0 0 0
              (Machine (set_slot buffers 0 b) LZ4_HEADER
                 [EvPack 0 first (brick_blocks BLOCK_SIZE first)
                    (brick_sizes BLOCK_SIZE first)]))
    as (a' & pb' & wh & m' & Hrun & Htr).
  - lia.
  - left. reflexivity.
  - rewrite length_skipn. lia.
  - cbn [mem]. pair_slots. exact Hwf.
  - cbn [mem]. pair_slots. exact Hw1.
  - cbn [Z.to_nat skipn] in Hrun, Htr. fold first in Hrun, Htr.
    fold rest in Htr. rewrite Hrun. cbn [bind].
    eexists. split; [ reflexivity | ].
    cbn [trace]. rewrite Htr. reflexivity.
Qed.

(** X7.  The schedule of [compress_overlapped]: the first brick is packed
    into slot 0; then for each brick the kernel is started, the brick before
    it is unpacked, and, if there is one, the next brick is packed and the
    wait follows; after the last start come the wait and the last unpack.
    The kernel is started once per brick, and once on an empty input; the
    starts are on slots 0, 1, 0, 1, ... *)
Theorem compress_overlapped_schedule (raw_data : list byte)
    (buffers : slot * slot) :
  slot_wf BLOCK_SIZE (get_slot buffers 0) ->
  slot_wf BLOCK_SIZE (get_slot buffers 1) ->
  let first := brick_total BLOCK_SIZE raw_data in
  let rest :=
    map (fun b => len b)
      (all_bricks BLOCK_SIZE (skipn (Z.to_nat BRICK) raw_data)) in
  exists m,
    compress_overlapped BLOCK_SIZE kernel eager raw_data buffers = Ok m
    /\ trace m =
       EvPack 0 first (brick_blocks BLOCK_SIZE first)
         (brick_sizes BLOCK_SIZE first)
       :: pipeline_events BLOCK_SIZE 0 0 first rest
    /\ kernel_sizes (trace m) = first :: rest
    /\ start_slots (trace m) = alternate 0 (submissions (trace m))
    /\ Z.of_nat (submissions (trace m))
       = Z.max 1 ((len raw_data + BRICK - 1) / BRICK).
Proof.
  intros Hw0 Hw1 first rest.
  destruct (compress_overlapped_events raw_data buffers Hw0 Hw1)
    as (m & Hrun & Htr).
  fold first rest in Htr.
  exists m. split; [ exact Hrun | ]. rewrite Htr.
  - split; [ reflexivity | ].
    assert (Hk : kernel_sizes
                   (EvPack 0 first (brick_blocks BLOCK_SIZE first)
                      (brick_sizes BLOCK_SIZE first)
                    :: pipeline_events BLOCK_SIZE 0 0 first rest)
                 = first :: rest)
      by (exact (kernel_sizes_pipeline rest 0 0 first)).
    split; [ exact Hk | ].
    rewrite submissions_kernel_sizes, Hk.
    split.
    + exact (start_slots_pipeline rest 0 0 first).
    + cbn [length]. unfold rest. rewrite length_map, Nat2Z.inj_succ.
      destruct raw_data as [ | x d ] eqn:Ed.
      * rewrite skipn_nil. cbn [all_bricks bricks length].
        change (len (@nil byte)) with 0.
        rewrite Z.div_small by (unfold BRICK_SIZE; lia). lia.
      * rewrite <- Ed.
        assert (Hl := all_bricks_length raw_data).
        rewrite (@all_bricks_cons raw_data) in Hl by (rewrite Ed; discriminate).
        cbn [length] in Hl. rewrite Nat2Z.inj_succ in Hl. lia.
Qed.

(** X8.  On a non-empty input [compress_overlapped] gives the kernel the
    same bricks in the same order as [compress_hw], and unpacks the same
    block counts in the same order: the bricks of the input, first to
    last. *)
Theorem compress_overlapped_same_bricks (raw_data : list byte)
    (hw_buffers : slot) (buffers : slot * slot) :
  slot_wf BLOCK_SIZE hw_buffers ->
  slot_wf BLOCK_SIZE (get_slot buffers 0) ->
  slot_wf BLOCK_SIZE (get_slot buffers 1) ->
  raw_data <> [] ->
  let sizes := map (fun b => len b) (all_bricks BLOCK_SIZE raw_data) in
  exists m_hw m_ov,
    compress_hw BLOCK_SIZE kernel raw_data hw_buffers = Ok m_hw
    /\ compress_overlapped BLOCK_SIZE kernel eager raw_data buffers = Ok m_ov
    /\ kernel_sizes (trace m_hw) = sizes
    /\ kernel_sizes (trace m_ov) = sizes
    /\ unpacked_blocks (trace m_hw) = map (brick_blocks BLOCK_SIZE) sizes
    /\ unpacked_blocks (trace m_ov) = map (brick_blocks BLOCK_SIZE) sizes.
Proof.
  intros Hw Hw0 Hw1 Hne sizes.
  destruct (compress_hw_events raw_data Hw) as (m1 & Hrun1 & Htr1).
  destruct (compress_overlapped_events raw_data buffers Hw0 Hw1)
    as (m2 & Hrun2 & Htr2).
  assert (Hk1 := kernel_sizes_brick_events sizes).
  fold sizes in Htr1. rewrite <- Htr1 in Hk1.
  cbv zeta in Htr2.
  assert (Hk2 : kernel_sizes (trace m2)
                = brick_total BLOCK_SIZE raw_data
                  :: map (fun b => len b)
                       (all_bricks BLOCK_SIZE
                          (skipn (Z.to_nat BRICK) raw_data)))
    by (rewrite Htr2; exact (kernel_sizes_pipeline _ 0 0 _)).
  exists m1, m2.
  assert (Hs : sizes
               = brick_total BLOCK_SIZE raw_data
                 :: map (fun b => len b)
                      (all_bricks BLOCK_SIZE
                         (skipn (Z.to_nat BRICK) raw_data))).
  { unfold sizes. rewrite (all_bricks_cons Hne). cbn [map].
    now rewrite len_firstn_brick. }
  repeat (split; [ assumption || congruence | ]).
  split.
  - rewrite Htr1. apply unpacked_blocks_brick_events.
  - rewrite Htr2, Hs. unfold unpacked_blocks. cbn [flat_map app].
    fold (unpacked_blocks
            (pipeline_events BLOCK_SIZE 0 0
               (brick_total BLOCK_SIZE raw_data)
               (map (fun b => len b)
                  (all_bricks BLOCK_SIZE
                     (skipn (Z.to_nat BRICK) raw_data))))).
    rewrite unpacked_blocks_pipeline; [ reflexivity | | ].
    + right. unfold brick_total, BRICK_SIZE.
      destruct raw_data; [ congruence | ]. unfold len. cbn [length]. lia.
    + apply Forall_map.
      eapply Forall_impl; [ | apply all_bricks_sizes ].
      cbn. intros b Hb. lia.
Qed.

End Runs.

(** ** Which bytes reach the accelerator, and reading them back *)

Lemma firstn_add_skipn (A : Type) (a b : nat) :
  forall l : list A, firstn (a + b) l = firstn a l ++ firstn b (skipn a l).
Proof.
  induction a as [ | a IH ]; intros l; [ reflexivity | ].
  destruct l as [ | x l ]; [ now rewrite skipn_nil, !firstn_nil | ].
  cbn [Nat.add firstn skipn app]. now rewrite IH.
Qed.

Lemma chunks_concat (A : Type) (n q : nat) (w : list A) :
  concat (map (fun i => firstn n (skipn (i * n) w)) (seq 0 q))
  = firstn (q * n) w.
Proof.
  induction q as [ | q IH ]; [ reflexivity | ].
  rewrite seq_S, map_app, concat_app, IH. cbn [Nat.add map concat].
  rewrite app_nil_r. replace (S q * n)%nat with (q * n + n)%nat by lia.
  symmetry. apply firstn_add_skipn.
Qed.

Section Conservation.

Variable BLOCK_SIZE : Z.
Hypothesis BLOCK_SIZE_range : 0 < BLOCK_SIZE < 2 ^ 32.

Abbreviation BRICK := (BRICK_SIZE BLOCK_SIZE).

(** The blocks of the brick at the head of [w], as the sizes describe
    them. *)
Lemma brick_inputs_concat (w : list byte) :
  let total := brick_total BLOCK_SIZE w in
  concat (map (block_input BLOCK_SIZE w)
            (seq 0 (Z.to_nat (brick_blocks BLOCK_SIZE total))))
  = firstn (Z.to_nat (total
                      - if (total <? BRICK) && (0 <? total)
                           && (total mod BLOCK_SIZE =? 0)
                        then BLOCK_SIZE else 0)) w.
Proof.
  intros total.
  assert (Ht := brick_total_range BLOCK_SIZE_range w). fold total in Ht.
  assert (Hr := brick_blocks_range BLOCK_SIZE_range Ht).
  set (n := Z.to_nat BLOCK_SIZE).
  assert (Hmap : forall (k : nat) (f : nat -> Z),
             (forall i, (i < k)%nat -> f i = BLOCK_SIZE) ->
             concat (map (fun i => firstn (Z.to_nat (f i))
                                     (skipn (Z.to_nat (Z.of_nat i * BLOCK_SIZE))
                                        w)) (seq 0 k))
             = firstn (k * n) w).
  { intros k f Hf. rewrite <- chunks_concat. f_equal.
    apply map_ext_in. intros i Hi. apply in_seq in Hi.
    rewrite Hf by lia. f_equal. f_equal. unfold n. nia. }
  unfold block_input. fold total.
  unfold brick_blocks, BRICK_SIZE in *.
  destruct (total =? 8 * BLOCK_SIZE) eqn:E.
  - apply Z.eqb_eq in E.
    destruct (total <? 8 * BLOCK_SIZE) eqn:El;
      [ apply Z.ltb_lt in El; lia | ].
    cbn [andb]. rewrite Hmap.
    + f_equal. unfold n. lia.
    + intros i Hi. rewrite nth_brick_sizes by lia.
      unfold BRICK_SIZE. now rewrite (proj2 (Z.eqb_eq _ _) E).
  - apply Z.eqb_neq in E.
    destruct (total <? 8 * BLOCK_SIZE) eqn:El;
      [ | apply Z.ltb_ge in El; lia ].
    cbn [andb].
    assert (Hmd := Z.div_mod (total - 1) BLOCK_SIZE ltac:(lia)).
    assert (Hmb := Z.mod_pos_bound (total - 1) BLOCK_SIZE ltac:(lia)).
    assert (Htd := Z.div_mod total BLOCK_SIZE ltac:(lia)).
    assert (Htb := Z.mod_pos_bound total BLOCK_SIZE ltac:(lia)).
    set (q := (total - 1) / BLOCK_SIZE) in *.
    destruct (0 <? total) eqn:E0.
    + apply Z.ltb_lt in E0.
      assert (Hq : 0 <= q) by (apply Z.div_pos; lia).
      replace (Z.to_nat (q + 1)) with (S (Z.to_nat q)) by lia.
      rewrite seq_S, map_app, concat_app. cbn [Nat.add map concat].
      rewrite app_nil_r.
      rewrite (Hmap (Z.to_nat q)
                 (fun i => nth i (brick_sizes BLOCK_SIZE total) 0)).
      * rewrite nth_brick_sizes by lia. unfold BRICK_SIZE. fold q.
        rewrite (proj2 (Z.eqb_neq _ _) E), Z2Nat.id, Z.ltb_irrefl, Z.eqb_refl
          by lia.
        replace (Z.to_nat q * n)%nat with (Z.to_nat (q * BLOCK_SIZE))
          by (unfold n; rewrite Z2Nat.inj_mul by lia; reflexivity).
        rewrite <- firstn_add_skipn. f_equal.
        cbn [andb].
        destruct (total mod BLOCK_SIZE =? 0) eqn:Em.
        -- apply Z.eqb_eq in Em. rewrite Em in *.
           assert (H1 : q < total / BLOCK_SIZE) by nia.
           assert (H2 : total / BLOCK_SIZE <= q + 1) by nia.
           assert (Hp : q * BLOCK_SIZE = total - BLOCK_SIZE) by nia.
           lia.
        -- apply Z.eqb_neq in Em.
           assert (H1 : q <= total / BLOCK_SIZE) by nia.
           assert (H2 : total / BLOCK_SIZE <= q) by nia.
           assert (Hp : q * BLOCK_SIZE = total - total mod BLOCK_SIZE) by nia.
           lia.
      * intros i Hi. rewrite nth_brick_sizes by lia.
        unfold BRICK_SIZE. fold q.
        rewrite (proj2 (Z.eqb_neq _ _) E).
        destruct (Z.of_nat i <? q) eqn:Ei;
          [ reflexivity | apply Z.ltb_ge in Ei; lia ].
    + apply Z.ltb_ge in E0. assert (H0 : total = 0) by lia.
      assert (Hq : q = -1) by nia.
      rewrite Hq. cbn [andb].
      replace (Z.to_nat (total - 0)) with 0%nat by lia. reflexivity.
Qed.

End Conservation.

Section WholeInput.

Variable BLOCK_SIZE : Z.
Hypothesis BLOCK_SIZE_range : 0 < BLOCK_SIZE < 2 ^ 32.

Abbreviation BRICK := (BRICK_SIZE BLOCK_SIZE).

Lemma lost_bytes_range (n : Z) :
  0 <= n -> 0 <= lost_bytes BLOCK_SIZE n <= n.
Proof.
  intros Hn. unfold lost_bytes, BRICK_SIZE.
  destruct (n mod BLOCK_SIZE =? 0) eqn:E1; cbn [andb]; [ | lia ].
  destruct (n mod (8 * BLOCK_SIZE) =? 0) eqn:E2; cbn [negb]; [ lia | ].
  apply Z.eqb_eq in E1. apply Z.eqb_neq in E2.
  assert (Hd := Z.div_mod n BLOCK_SIZE ltac:(lia)).
  assert (n <> 0) by (intros ->; apply E2; apply Z.mod_0_l; lia).
  rewrite E1 in Hd.
  assert (0 < n / BLOCK_SIZE) by nia.
  nia.
Qed.

Lemma lost_bytes_next (n : Z) :
  lost_bytes BLOCK_SIZE (n - BRICK) = lost_bytes BLOCK_SIZE n.
Proof.
  unfold lost_bytes, BRICK_SIZE.
  replace (n - 8 * BLOCK_SIZE) with (n + (-8) * BLOCK_SIZE) at 1 by lia.
  rewrite Z_mod_plus_full.
  replace (n - 8 * BLOCK_SIZE) with (n + (-1) * (8 * BLOCK_SIZE)) by lia.
  rewrite Z_mod_plus_full. reflexivity.
Qed.

Lemma lost_bytes_last (n : Z) :
  0 < n < BRICK ->
  lost_bytes BLOCK_SIZE n
  = if (n <? BRICK) && (0 <? n) && (n mod BLOCK_SIZE =? 0)
    then BLOCK_SIZE else 0.
Proof.
  intros Hn. unfold lost_bytes.
  rewrite (Z.mod_small n BRICK) by lia.
  destruct (n <? BRICK) eqn:E1; [ | apply Z.ltb_ge in E1; lia ].
  destruct (0 <? n) eqn:E2; [ | apply Z.ltb_ge in E2; lia ].
  destruct (n =? 0) eqn:E3; [ apply Z.eqb_eq in E3; lia | ].
  cbn [andb negb]. now rewrite andb_true_r.
Qed.

(** The blocks given to the accelerator, brick after brick, are the input
    in order, up to the bytes that no size covers. *)
Lemma brick_inputs_all (n : nat) :
  forall w : list byte,
    (length w <= n)%nat ->
    concat (flat_map (brick_inputs BLOCK_SIZE) (all_bricks BLOCK_SIZE w))
    = firstn (Z.to_nat (len w - lost_bytes BLOCK_SIZE (len w))) w.
Proof.
  assert (HB : 0 < BRICK) by (unfold BRICK_SIZE; lia).
  induction n as [ | n IH ]; intros w Hn.
  - destruct w; [ reflexivity | cbn in Hn; lia ].
  - destruct w as [ | x d ] eqn:Ew; [ reflexivity | ]. rewrite <- Ew in *.
    assert (Hne : w <> []) by (rewrite Ew; discriminate).
    assert (Hlw : 0 < len w) by (rewrite Ew; unfold len; cbn; lia).
    rewrite (all_bricks_cons BLOCK_SIZE_range Hne).
    cbn [flat_map]. rewrite concat_app.
    rewrite IH
      by (rewrite length_skipn; rewrite Ew in *; cbn [length] in *; lia).
    set (b := firstn (Z.to_nat BRICK) w).
    assert (Hb := brick_inputs_concat BLOCK_SIZE_range b). cbv zeta in Hb.
    unfold brick_inputs at 1. rewrite Hb. clear Hb.
    assert (Hbt : brick_total BLOCK_SIZE b = brick_total BLOCK_SIZE w)
      by apply (brick_total_firstn BLOCK_SIZE_range).
    rewrite !Hbt.
    assert (Hlr := lost_bytes_range (len_nonneg w)).
    destruct (Z.le_gt_cases BRICK (len w)) as [Hge | Hlt].
    + assert (Ht : brick_total BLOCK_SIZE w = BRICK)
        by (unfold brick_total; lia).
      rewrite Ht.
      destruct (BRICK <? BRICK) eqn:E; [ apply Z.ltb_lt in E; lia | ].
      cbn [andb]. rewrite Z.sub_0_r.
      unfold b. rewrite firstn_firstn, Nat.min_id.
      assert (Hl' : len (skipn (Z.to_nat BRICK) w) = len w - BRICK)
        by (unfold len in *; rewrite length_skipn; lia).
      rewrite Hl', lost_bytes_next.
      assert (Hlr' := lost_bytes_range
                        (len_nonneg (skipn (Z.to_nat BRICK) w))).
      rewrite Hl', lost_bytes_next in Hlr'.
      rewrite <- firstn_add_skipn. f_equal. lia.
    + assert (Ht : brick_total BLOCK_SIZE w = len w)
        by (unfold brick_total; lia).
      rewrite Ht, <- lost_bytes_last by lia.
      rewrite (skipn_all2 w) by (unfold len in *; lia).
      rewrite firstn_nil, app_nil_r.
      unfold b. rewrite firstn_firstn. f_equal. unfold len in *. lia.
Qed.

End WholeInput.

(** *** Blocks without bytes *)

Lemma nonempty_but_last_app (xs ys : list (list byte)) :
  Forall (fun x => x <> []) xs ->
  nonempty_but_last ys -> nonempty_but_last (xs ++ ys).
Proof.
  intros Hx Hy. induction Hx as [ | x xs Hne _ IH ]; [ exact Hy | ].
  cbn [app nonempty_but_last].
  destruct (xs ++ ys); [ exact I | split; assumption ].
Qed.

Lemma nonempty_but_last_map (f : list byte -> list byte)
    (xs : list (list byte)) :
  (forall x, x <> [] -> f x <> []) ->
  nonempty_but_last xs -> nonempty_but_last (map f xs).
Proof.
  intros Hf. induction xs as [ | x xs IH ]; [ trivial | ].
  destruct xs as [ | y xs ]; [ trivial | ].
  intros (Hx & Hxs). cbn [map nonempty_but_last] in *.
  split; [ now apply Hf | now apply IH ].
Qed.

Lemma nonempty_but_last_seq (f : nat -> list byte) (k : nat) :
  (forall i, (S i < k)%nat -> f i <> []) ->
  nonempty_but_last (map f (seq 0 k)).
Proof.
  intros Hf. induction k as [ | k IH ]; [ exact I | ].
  rewrite seq_S, map_app. cbn [Nat.add map].
  apply nonempty_but_last_app; [ | exact I ].
  apply Forall_forall. intros x Hin. apply in_map_iff in Hin.
  destruct Hin as (i & <- & Hi). apply in_seq in Hi. apply Hf. lia.
Qed.

Section Blocks.

Variable BLOCK_SIZE : Z.
Hypothesis BLOCK_SIZE_range : 0 < BLOCK_SIZE < 2 ^ 32.

Abbreviation BRICK := (BRICK_SIZE BLOCK_SIZE).

(** In a brick every block before the last valid one is full. *)
Lemma block_input_full (w : list byte) (i : nat) :
  let total := brick_total BLOCK_SIZE w in
  Z.of_nat i < brick_blocks BLOCK_SIZE total ->
  total = BRICK \/ Z.of_nat i < brick_blocks BLOCK_SIZE total - 1 ->
  len (block_input BLOCK_SIZE w i) = BLOCK_SIZE.
Proof.
  intros total Hi Hfull.
  assert (Ht := brick_total_range BLOCK_SIZE_range w). fold total in Ht.
  assert (Hr := brick_blocks_range BLOCK_SIZE_range Ht).
  assert (Hfit := brick_sizes_fit BLOCK_SIZE_range i Ht Hi).
  assert (Hs : nth i (brick_sizes BLOCK_SIZE total) 0 = BLOCK_SIZE).
  { rewrite nth_brick_sizes by lia. unfold brick_blocks in *.
    destruct (total =? BRICK) eqn:E; [ reflexivity | ].
    apply Z.eqb_neq in E.
    destruct (Z.of_nat i <? (total - 1) / BLOCK_SIZE) eqn:E1;
      [ reflexivity | apply Z.ltb_ge in E1; lia ]. }
  unfold block_input. fold total. rewrite Hs in *.
  assert (Hw : total <= len w) by (unfold total, brick_total; lia).
  unfold len in *. rewrite length_firstn, length_skipn. lia.
Qed.

Lemma brick_inputs_nonempty (w : list byte) :
  nonempty_but_last (brick_inputs BLOCK_SIZE w)
  /\ (brick_total BLOCK_SIZE w = BRICK ->
      Forall (fun x => x <> []) (brick_inputs BLOCK_SIZE w)).
Proof.
  unfold brick_inputs.
  assert (Ht := brick_total_range BLOCK_SIZE_range w).
  assert (Hr := brick_blocks_range BLOCK_SIZE_range Ht).
  assert (Hne : forall x : list byte, len x = BLOCK_SIZE -> x <> [])
    by (intros x Hx ->; change (len (@nil byte)) with 0 in Hx; lia).
  split.
  - apply nonempty_but_last_seq. intros i Hi.
    apply Hne, block_input_full; lia.
  - intros Hfull. apply Forall_forall. intros x Hin.
    apply in_map_iff in Hin. destruct Hin as (i & <- & Hi).
    apply in_seq in Hi. apply Hne, block_input_full; lia.
Qed.

Lemma brick_inputs_all_nonempty (n : nat) :
  forall w : list byte,
    (length w <= n)%nat ->
    nonempty_but_last
      (flat_map (brick_inputs BLOCK_SIZE) (all_bricks BLOCK_SIZE w)).
Proof.
  assert (HB : 0 < BRICK) by (unfold BRICK_SIZE; lia).
  induction n as [ | n IH ]; intros w Hn.
  - destruct w; [ exact I | cbn in Hn; lia ].
  - destruct w as [ | x d ] eqn:Ew; [ exact I | ]. rewrite <- Ew in *.
    assert (Hne : w <> []) by (rewrite Ew; discriminate).
    rewrite (all_bricks_cons BLOCK_SIZE_range Hne). cbn [flat_map].
    set (b := firstn (Z.to_nat BRICK) w).
    destruct (brick_inputs_nonempty b) as (Hlast & Hfull).
    assert (Hbt : brick_total BLOCK_SIZE b = brick_total BLOCK_SIZE w)
      by apply (brick_total_firstn BLOCK_SIZE_range).
    destruct (Z.le_gt_cases BRICK (len w)) as [Hge | Hlt].
    + apply nonempty_but_last_app.
      * apply Hfull. rewrite Hbt. unfold brick_total. lia.
      * apply IH. rewrite length_skipn. rewrite Ew in *.
        cbn [length] in *. lia.
    + rewrite (skipn_all2 w) by (unfold len in *; lia).
      cbn [all_bricks length bricks flat_map]. now rewrite app_nil_r.
Qed.

Lemma brick_payloads_inputs (codec : list byte -> list byte)
    (ws : list (list byte)) :
  flat_map (brick_payloads BLOCK_SIZE codec) ws
  = map codec (flat_map (brick_inputs BLOCK_SIZE) ws).
Proof.
  induction ws as [ | w ws IH ]; [ reflexivity | ].
  cbn [flat_map]. rewrite map_app, IH. f_equal.
  unfold brick_payloads, brick_inputs. now rewrite map_map.
Qed.

End Blocks.

(** *** The reader *)

Lemma read_records_S (fuel : nat) (bs : list byte) :
  read_records (S fuel) bs
  = if (length bs <? 4)%nat then None
    else
      let size := unpack_I (firstn 4 bs) in
      let rest := skipn 4 bs in
      if size =? 0 then Some []
      else if len rest <? size then None
      else
        match read_records fuel (skipn (Z.to_nat size) rest) with
        | Some payloads => Some (firstn (Z.to_nat size) rest :: payloads)
        | None => None
        end.
Proof. reflexivity. Qed.

Lemma read_records_end (fuel : nat) (tail : list byte) :
  read_records (S fuel) (END_MARK ++ tail) = Some [].
Proof. reflexivity. Qed.

Lemma read_records_record (fuel : nat) (p tail : list byte) :
  0 < len p < 2 ^ 32 ->
  read_records (S fuel) (record p ++ tail)
  = match read_records fuel tail with
    | Some payloads => Some (p :: payloads)
    | None => None
    end.
Proof.
  intros Hp. rewrite read_records_S. unfold record.
  change (pack_I (len p) ++ p) with
    (byte_of_Z (len p) :: byte_of_Z (len p / 2 ^ 8)
       :: byte_of_Z (len p / 2 ^ 16) :: byte_of_Z (len p / 2 ^ 24) :: p).
  cbn [app length firstn skipn Nat.ltb Nat.leb].
  change [byte_of_Z (len p); byte_of_Z (len p / 2 ^ 8);
          byte_of_Z (len p / 2 ^ 16); byte_of_Z (len p / 2 ^ 24)]
    with (pack_I (len p)).
  cbv zeta. rewrite unpack_pack_I by lia.
  destruct (len p =? 0) eqn:E0; [ apply Z.eqb_eq in E0; lia | ].
  destruct (len (p ++ tail) <? len p) eqn:E1.
  { apply Z.ltb_lt in E1. rewrite len_app in E1.
    assert (H := len_nonneg tail). lia. }
  unfold len. rewrite Nat2Z.id, skipn_app, firstn_app, Nat.sub_diag.
  rewrite skipn_all, firstn_all. cbn [firstn skipn app].
  now rewrite app_nil_r.
Qed.

Lemma read_records_frame (ps : list (list byte)) :
  forall fuel : nat,
    Forall (fun p => len p < 2 ^ 32) ps ->
    nonempty_but_last ps ->
    (length ps < fuel)%nat ->
    exists qs,
      read_records fuel (flat_map record ps ++ END_MARK) = Some qs
      /\ (qs = ps \/ ps = qs ++ [[]]).
Proof.
  induction ps as [ | p ps IH ]; intros fuel Hfit Hne Hfuel.
  - destruct fuel as [ | fuel ]; [ cbn in Hfuel; lia | ].
    exists []. split; [ reflexivity | now left ].
  - destruct fuel as [ | fuel ]; [ cbn in Hfuel; lia | ].
    inversion Hfit as [ | ? ? Hp Hps ]; subst.
    cbn [flat_map]. rewrite <- app_assoc.
    destruct p as [ | x p ].
    + destruct ps as [ | q ps ]; [ | now destruct Hne ].
      exists []. split; [ reflexivity | now right ].
    + assert (Hlen : 0 < len (x :: p))
        by (unfold len; cbn [length]; lia).
      rewrite read_records_record by lia.
      destruct (IH fuel Hps) as (qs & Hrun & Hqs).
      * destruct ps; [ exact I | apply Hne ].
      * cbn [length] in Hfuel. lia.
      * rewrite Hrun. exists ((x :: p) :: qs). split; [ reflexivity | ].
        destruct Hqs as [-> | ->]; [ now left | now right ].
Qed.

Lemma flat_map_record_length (ps : list (list byte)) :
  (length ps <= length (flat_map record ps))%nat.
Proof.
  induction ps as [ | p ps IH ]; [ cbn; lia | ].
  change (flat_map record (p :: ps)) with (record p ++ flat_map record ps).
  unfold record at 1. rewrite !length_app.
  change (length (pack_I (len p))) with 4%nat. cbn [length]. lia.
Qed.

(** A frame of records whose payloads were produced by [codec] decodes to
    the blocks that were compressed. *)
Lemma decompress_frame_records (codec decode : list byte -> list byte)
    (inputs : list (list byte)) :
  (forall b, decode (codec b) = b) ->
  decode [] = [] ->
  Forall (fun p => len p < 2 ^ 32) (map codec inputs) ->
  nonempty_but_last inputs ->
  decompress_frame decode
    (LZ4_HEADER ++ flat_map record (map codec inputs) ++ END_MARK)
  = Some (concat inputs).
Proof.
  intros Hinv Hnil Hfit Hne.
  assert (Hcodec : forall x : list byte, x <> [] -> codec x <> []).
  { intros x Hx Hc. apply Hx. rewrite <- (Hinv x), Hc. exact Hnil. }
  unfold decompress_frame, read_frame.
  change (firstn 7 (LZ4_HEADER ++ ?l)) with LZ4_HEADER.
  change (skipn 7 (LZ4_HEADER ++ ?l)) with l.
  destruct (list_eq_dec Byte.byte_eq_dec LZ4_HEADER LZ4_HEADER)
    as [ _ | Hd ]; [ | now destruct Hd ].
  destruct (@read_records_frame (map codec inputs)
              (length (LZ4_HEADER
                       ++ flat_map record (map codec inputs) ++ END_MARK))
              Hfit (nonempty_but_last_map codec inputs Hcodec Hne))
    as (qs & Hrun & Hqs).
  { rewrite !length_app.
    assert (H := flat_map_record_length (map codec inputs)).
    cbn [length LZ4_HEADER LZ4_MAGIC app END_MARK]. lia. }
  rewrite Hrun. f_equal.
  assert (Hid : concat (map decode (map codec inputs)) = concat inputs).
  { f_equal. rewrite map_map. rewrite <- (map_id inputs) at 2.
    apply map_ext. exact Hinv. }
  destruct Hqs as [-> | Hqs]; [ exact Hid | ].
  rewrite <- Hid, Hqs, map_app, concat_app. cbn [map concat].
  now rewrite Hnil, !app_nil_r.
Qed.

Section RoundTrip.

Variable BLOCK_SIZE : Z.
Variable kernel : accelerator.
Variable codec : list byte -> list byte.
Variable decode : list byte -> list byte.
Variable eager : bool.
Hypothesis BLOCK_SIZE_range : 0 < BLOCK_SIZE < 2 ^ 32.
Hypothesis kernel_contract : accel_contract BLOCK_SIZE codec kernel.
Hypothesis decode_codec : forall b, decode (codec b) = b.
Hypothesis decode_nil : decode [] = [].

Abbreviation BRICK := (BRICK_SIZE BLOCK_SIZE).

Lemma frame_decodes (raw_data : list byte) (b0 : slot) :
  slot_wf BLOCK_SIZE b0 ->
  decompress_frame decode
    (LZ4_HEADER
     ++ flat_map record
          (flat_map (brick_payloads BLOCK_SIZE codec)
             (all_bricks BLOCK_SIZE raw_data))
     ++ END_MARK)
  = Some (firstn (Z.to_nat (len raw_data
                            - lost_bytes BLOCK_SIZE (len raw_data)))
            raw_data).
Proof.
  intros Hwf.
  assert (Hfit : Forall (fun p => len p < 2 ^ 32)
                   (flat_map (brick_payloads BLOCK_SIZE codec)
                      (all_bricks BLOCK_SIZE raw_data))).
  { apply Forall_forall. intros p Hin. apply in_flat_map in Hin.
    destruct Hin as (w & _ & Hin).
    assert (Hf := brick_payloads_fit BLOCK_SIZE_range kernel_contract w Hwf).
    rewrite Forall_forall in Hf. apply Hf in Hin. lia. }
  rewrite brick_payloads_inputs in *.
  rewrite (decompress_frame_records codec decode _ decode_codec decode_nil
             Hfit).
  - f_equal.
    apply (@brick_inputs_all BLOCK_SIZE BLOCK_SIZE_range (length raw_data)).
    lia.
  - apply (@brick_inputs_all_nonempty BLOCK_SIZE BLOCK_SIZE_range
             (length raw_data)).
    lia.
Qed.

Lemma firstn_lost (raw_data : list byte) :
  firstn (Z.to_nat (len raw_data - lost_bytes BLOCK_SIZE (len raw_data)))
    raw_data = raw_data
  <-> len raw_data mod BLOCK_SIZE <> 0 \/ len raw_data mod BRICK = 0.
Proof.
  assert (Hr := lost_bytes_range BLOCK_SIZE_range (len_nonneg raw_data)).
  assert (Hl : lost_bytes BLOCK_SIZE (len raw_data) = 0
               <-> len raw_data mod BLOCK_SIZE <> 0
                   \/ len raw_data mod BRICK = 0).
  { unfold lost_bytes.
    destruct (len raw_data mod BLOCK_SIZE =? 0) eqn:E1;
      destruct (len raw_data mod BRICK =? 0) eqn:E2; cbn [andb negb];
      rewrite ?Z.eqb_eq, ?Z.eqb_neq in *; lia. }
  rewrite <- Hl. split.
  - intros H. apply (f_equal (@length byte)) in H.
    rewrite length_firstn in H. unfold len in *. lia.
  - intros ->. apply firstn_all2. unfold len. lia.
Qed.

(** X9.  Reading the stream of [compress_hw] back block by block and
    decoding each payload gives the input without the bytes that no
    recorded size covers: all of it, unless its length is a multiple of
    [BLOCK_SIZE] and not of [BRICK_SIZE], when the last [BLOCK_SIZE] bytes
    are missing. *)
Theorem compress_hw_decompress (raw_data : list byte) (hw_buffers : slot) :
  slot_wf BLOCK_SIZE hw_buffers ->
  exists m,
    compress_hw BLOCK_SIZE kernel raw_data hw_buffers = Ok m
    /\ decompress_frame decode (stream m)
       = Some (firstn (Z.to_nat (len raw_data
                                 - lost_bytes BLOCK_SIZE (len raw_data)))
                 raw_data).
Proof.
  intros Hw.
  destruct (compress_hw_stream BLOCK_SIZE_range kernel_contract raw_data Hw)
    as (m & Hrun & Hst).
  exists m. split; [ exact Hrun | ].
  rewrite Hst. now apply frame_decodes with (b0 := hw_buffers).
Qed.

(** X10.  The same holds for the stream of [compress_overlapped], whenever
    the accelerator writes its results. *)
Theorem compress_overlapped_decompress (raw_data : list byte)
    (buffers : slot * slot) :
  slot_wf BLOCK_SIZE (get_slot buffers 0) ->
  slot_wf BLOCK_SIZE (get_slot buffers 1) ->
  exists m,
    compress_overlapped BLOCK_SIZE kernel eager raw_data buffers = Ok m
    /\ decompress_frame decode (stream m)
       = Some (firstn (Z.to_nat (len raw_data
                                 - lost_bytes BLOCK_SIZE (len raw_data)))
                 raw_data).
Proof.
  intros Hw0 Hw1.
  destruct (compress_overlapped_stream eager BLOCK_SIZE_range kernel_contract
              raw_data buffers Hw0 Hw1) as (m & Hrun & Hst).
  exists m. split; [ exact Hrun | ].
  rewrite Hst. now apply frame_decodes with (b0 := get_slot buffers 0).
Qed.

(** X11.  The round trip through either compressor gives the input back
    exactly when its length is not a multiple of [BLOCK_SIZE], or is a
    multiple of [BRICK_SIZE]. *)
Theorem roundtrip_exact_iff (raw_data : list byte) (hw_buffers : slot)
    (buffers : slot * slot) :
  slot_wf BLOCK_SIZE hw_buffers ->
  slot_wf BLOCK_SIZE (get_slot buffers 0) ->
  slot_wf BLOCK_SIZE (get_slot buffers 1) ->
  exists m_hw m_ov,
    compress_hw BLOCK_SIZE kernel raw_data hw_buffers = Ok m_hw
    /\ compress_overlapped BLOCK_SIZE kernel eager raw_data buffers = Ok m_ov
    /\ (decompress_frame decode (stream m_hw) = Some raw_data
        <-> len raw_data mod BLOCK_SIZE <> 0 \/ len raw_data mod BRICK = 0)
    /\ (decompress_frame decode (stream m_ov) = Some raw_data
        <-> len raw_data mod BLOCK_SIZE <> 0 \/ len raw_data mod BRICK = 0).
Proof.
  intros Hw Hw0 Hw1.
  destruct (compress_hw_stream BLOCK_SIZE_range kernel_contract raw_data Hw)
    as (m1 & Hrun1 & Hst1).
  destruct (compress_overlapped_stream eager BLOCK_SIZE_range kernel_contract
              raw_data buffers Hw0 Hw1) as (m2 & Hrun2 & Hst2).
  exists m1, m2. split; [ exact Hrun1 | ]. split; [ exact Hrun2 | ].
  rewrite Hst1, Hst2, (frame_decodes raw_data Hw), <- firstn_lost.
  split; (split; [ now intros [= ->] | now intros -> ]).
Qed.

End RoundTrip.

(** ** Buffers of the wrong shape *)

Section Shapes.

Variable BLOCK_SIZE : Z.
Variable kernel : accelerator.
Variable eager : bool.

Abbreviation BRICK := (BRICK_SIZE BLOCK_SIZE).

(** X12.  With an input array that does not hold [BRICK_SIZE] bytes,
    [compress_hw] raises on every input but the empty one, for which it
    never looks at the buffers and returns the header and the end mark. *)
Theorem compress_hw_bad_buffer (raw_data : list byte) (buffers : slot) :
  len (in_buffers buffers) <> BRICK ->
  compress_hw BLOCK_SIZE kernel raw_data buffers
  = if len raw_data =? 0
    then Ok (Machine buffers (LZ4_HEADER ++ END_MARK) [])
    else Err ValueError.
Proof.
  intros Hb. unfold compress_hw. cbn [compress_hw_loop mem stream trace].
  assert (Hl := len_nonneg raw_data).
  destruct (len raw_data =? 0) eqn:E.
  - apply Z.eqb_eq in E.
    destruct (0 <? len raw_data) eqn:E1; [ apply Z.ltb_lt in E1; lia | ].
    reflexivity.
  - apply Z.eqb_neq in E.
    destruct (0 <? len raw_data) eqn:E1; [ | apply Z.ltb_ge in E1; lia ].
    unfold write_uncompressed.
    destruct (len (in_buffers buffers) =? BRICK) eqn:E2;
      [ apply Z.eqb_eq in E2; contradiction | ].
    reflexivity.
Qed.

(** X13.  [compress_overlapped] packs slot 0 before it looks at the input:
    with an input array of slot 0 that does not hold [BRICK_SIZE] bytes it
    raises on every input, the empty one too. *)
Theorem compress_overlapped_bad_buffer (raw_data : list byte)
    (buffers : slot * slot) :
  len (in_buffers (fst buffers)) <> BRICK ->
  compress_overlapped BLOCK_SIZE kernel eager raw_data buffers
  = Err ValueError.
Proof.
  intros Hb. unfold compress_overlapped, write_uncompressed.
  rewrite get_slot_0.
  destruct (len (in_buffers (fst buffers)) =? BRICK) eqn:E2;
    [ apply Z.eqb_eq in E2; contradiction | ].
  reflexivity.
Qed.

End Shapes.

(** ** The second slot *)

Section SecondSlot.

Variable BLOCK_SIZE : Z.
Variable kernel : accelerator.
Variable codec : list byte -> list byte.
Variable eager : bool.
Hypothesis BLOCK_SIZE_range : 0 < BLOCK_SIZE < 2 ^ 32.
Hypothesis kernel_contract : accel_contract BLOCK_SIZE codec kernel.

Abbreviation BRICK := (BRICK_SIZE BLOCK_SIZE).

(** X14.  On an input of at most one brick [compress_overlapped] works in
    slot 0 alone: whatever slot 1 holds, and whatever its shape, the run
    succeeds, leaves slot 1 as it was and writes the records of the one
    brick. *)
Theorem compress_overlapped_one_brick (raw_data : list byte)
    (buffers : slot * slot) :
  slot_wf BLOCK_SIZE (get_slot buffers 0) ->
  len raw_data <= BRICK ->
  exists m,
    compress_overlapped BLOCK_SIZE kernel eager raw_data buffers = Ok m
    /\ snd (mem m) = snd buffers
    /\ Forall (fun e => event_slot e = 0) (trace m)
    /\ stream m =
       LZ4_HEADER
       ++ flat_map record (brick_payloads BLOCK_SIZE codec raw_data)
       ++ END_MARK.
Proof.
  intros Hw0 Hlen. unfold compress_overlapped.
  destruct (first_pack BLOCK_SIZE_range raw_data buffers Hw0)
    as (b & Hw & Hb & Hwf & Hp).
  rewrite Hw. cbn [bind]. rewrite Hb. clear Hw Hb.
  assert (Hl := len_nonneg raw_data).
  assert (Ht : brick_total BLOCK_SIZE raw_data = len raw_data)
    by (unfold brick_total; lia).
  cbn [compress_overlapped_loop mem stream trace].
  change (negb (0 =? 0)) with false. cbv iota.
  assert (E : (0 + brick_total BLOCK_SIZE raw_data <? len raw_data) = false)
    by (apply Z.ltb_ge; lia).
  rewrite E. cbn [bind mem stream trace fst]. rewrite lxor_0_1, lxor_1_1.
  eexists. split; [ reflexivity | ]. cbn [mem stream trace].
  split; [ | split ].
  - rewrite <- get_slot_1, <- lxor_0_1.
    rewrite wait_start_other by (now left).
    rewrite lxor_0_1, get_slot_1, set_slot_0. reflexivity.
  - cbn [app]. repeat constructor.
  - rewrite wait_start_same by (now left). rewrite get_slot_0, set_slot_0.
    cbn [fst].
    assert (Hrd := run_kernel_read BLOCK_SIZE_range kernel_contract
                     LZ4_HEADER Hp).
    cbv zeta in Hrd. rewrite Hrd.
    now rewrite <- app_assoc.
Qed.

(** X15.  As soon as the input is longer than one brick the second brick
    is packed into slot 1: if the input array of that slot does not hold
    [BRICK_SIZE] bytes the run raises. *)
Theorem compress_overlapped_second_slot (raw_data : list byte)
    (buffers : slot * slot) :
  slot_wf BLOCK_SIZE (get_slot buffers 0) ->
  len (in_buffers (snd buffers)) <> BRICK ->
  BRICK < len raw_data ->
  compress_overlapped BLOCK_SIZE kernel eager raw_data buffers
  = Err ValueError.
Proof.
  intros Hw0 Hb1 Hlen. unfold compress_overlapped.
  destruct (first_pack BLOCK_SIZE_range raw_data buffers Hw0)
    as (b & Hw & Hb & Hwf & Hp).
  rewrite Hw. cbn [bind]. rewrite Hb. clear Hw Hb.
  assert (Ht : brick_total BLOCK_SIZE raw_data = BRICK)
    by (unfold brick_total; lia).
  cbn [compress_overlapped_loop mem stream trace].
  change (negb (0 =? 0)) with false. cbv iota.
  assert (E : (0 + brick_total BLOCK_SIZE raw_data <? len raw_data) = true)
    by (apply Z.ltb_lt; lia).
  rewrite E. rewrite !start_other by (now left).
  rewrite lxor_0_1, get_slot_1, set_slot_0. cbn [snd].
  unfold write_uncompressed.
  destruct (len (in_buffers (snd buffers)) =? BRICK) eqn:E2;
    [ apply Z.eqb_eq in E2; contradiction | ].
  reflexivity.
Qed.

End SecondSlot.

(** * The further properties at work *)

(** All instances below use [BLOCK_SIZE = 2], so a brick has 16 bytes, and
    the accelerator that stores every block as it is. *)

Lemma write_uncompressed_sizes_witness :
  let total := Z.min (len [x01; x02; x03; x04]) (BRICK_SIZE 2) in
  exists buffers' sizes' blocks,
    write_uncompressed 2 [x01; x02; x03; x04] (repeat x00 16) (repeat 7 8)
    = Ok (buffers', sizes', total, blocks)
    /\ (blocks - 1) * 2 < total <= blocks * 2
    /\ forall i : nat,
         (i < 8)%nat ->
         nth i sizes' 0 =
         if Z.of_nat i <? blocks then
           if (Z.of_nat i =? blocks - 1) && (total <? BRICK_SIZE 2)
              && (total mod 2 =? 0)
           then 0
           else Z.min 2 (total - Z.of_nat i * 2)
         else 0.
Proof.
  apply (@write_uncompressed_sizes 2).
  - lia.
  - reflexivity.
  - reflexivity.
Defined.

Lemma write_uncompressed_buffer_witness :
  let total := Z.min (len [x01; x02; x03]) (BRICK_SIZE 2) in
  exists buffers' sizes' blocks,
    write_uncompressed 2 [x01; x02; x03] (repeat xff 16) (repeat 7 8)
    = Ok (buffers', sizes', total, blocks)
    /\ len buffers' = BRICK_SIZE 2
    /\ firstn (Z.to_nat total) buffers'
       = firstn (Z.to_nat total) [x01; x02; x03]
    /\ skipn (Z.to_nat total) buffers'
       = skipn (Z.to_nat total) (repeat xff 16).
Proof.
  apply (@write_uncompressed_buffer 2).
  - lia.
  - reflexivity.
  - reflexivity.
Defined.

Lemma write_uncompressed_again_witness :
  exists buffers' sizes' total blocks,
    write_uncompressed 2 [x01; x02; x03] (repeat xff 16) (repeat 7 8)
    = Ok (buffers', sizes', total, blocks)
    /\ write_uncompressed 2 [x01; x02; x03] (repeat xff 16) (repeat 0 8)
       = Ok (buffers', sizes', total, blocks)
    /\ write_uncompressed 2 [x01; x02; x03] buffers' sizes'
       = Ok (buffers', sizes', total, blocks).
Proof.
  apply (@write_uncompressed_again 2).
  - lia.
  - reflexivity.
  - reflexivity.
  - reflexivity.
Defined.


Lemma compress_hw_schedule_witness :
  exists m,
    compress_hw 2 (block_kernel 2 stored) (repeat x07 19) (zero_slot 2) = Ok m
    /\ trace m =
       flat_map (brick_events 2)
         (map (fun b => len b) (all_bricks 2 (repeat x07 19)))
    /\ kernel_sizes (trace m)
       = map (fun b => len b) (all_bricks 2 (repeat x07 19))
    /\ Z.of_nat (submissions (trace m))
       = (len (repeat x07 19) + BRICK_SIZE 2 - 1) / BRICK_SIZE 2
    /\ Forall (fun n => 0 < n <= BRICK_SIZE 2) (kernel_sizes (trace m))
    /\ concat (all_bricks 2 (repeat x07 19)) = repeat x07 19.
Proof.
  apply (@compress_hw_schedule 2 (block_kernel 2 stored)).
  - lia.
  - exact zero_slot_wf.
Defined.

Lemma compress_overlapped_schedule_witness :
  let first := brick_total 2 (repeat x07 19) in
  let rest :=
    map (fun b => len b)
      (all_bricks 2 (skipn (Z.to_nat (BRICK_SIZE 2)) (repeat x07 19))) in
  exists m,
    compress_overlapped 2 (block_kernel 2 stored) false (repeat x07 19)
      (zero_slot 2, zero_slot 2) = Ok m
    /\ trace m =
       EvPack 0 first (brick_blocks 2 first) (brick_sizes 2 first)
       :: pipeline_events 2 0 0 first rest
    /\ kernel_sizes (trace m) = first :: rest
    /\ start_slots (trace m) = alternate 0 (submissions (trace m))
    /\ Z.of_nat (submissions (trace m))
       = Z.max 1 ((len (repeat x07 19) + BRICK_SIZE 2 - 1) / BRICK_SIZE 2).
Proof.
  apply (@compress_overlapped_schedule 2 (block_kernel 2 stored) false).
  - lia.
  - exact zero_slot_wf.
  - exact zero_slot_wf.
Defined.

Lemma compress_overlapped_same_bricks_witness :
  let sizes := map (fun b => len b) (all_bricks 2 (repeat x07 35)) in
  exists m_hw m_ov,
    compress_hw 2 (block_kernel 2 stored) (repeat x07 35) (zero_slot 2)
    = Ok m_hw
    /\ compress_overlapped 2 (block_kernel 2 stored) true (repeat x07 35)
         (zero_slot 2, zero_slot 2) = Ok m_ov
    /\ kernel_sizes (trace m_hw) = sizes
    /\ kernel_sizes (trace m_ov) = sizes
    /\ unpacked_blocks (trace m_hw) = map (brick_blocks 2) sizes
    /\ unpacked_blocks (trace m_ov) = map (brick_blocks 2) sizes.
Proof.
  apply (@compress_overlapped_same_bricks 2 (block_kernel 2 stored) true).
  - lia.
  - exact zero_slot_wf.
  - exact zero_slot_wf.
  - exact zero_slot_wf.
  - discriminate.
Defined.

(** Four bytes are two full blocks: the second is given to the accelerator
    with size 0, and two bytes come back. *)
Lemma compress_hw_decompress_witness :
  exists m,
    compress_hw 2 (block_kernel 2 stored) [x01; x02; x03; x04] (zero_slot 2)
    = Ok m
    /\ decompress_frame stored (stream m)
       = Some (firstn (Z.to_nat (len [x01; x02; x03; x04]
                                 - lost_bytes 2 (len [x01; x02; x03; x04])))
                 [x01; x02; x03; x04]).
Proof.
  apply (@compress_hw_decompress 2 (block_kernel 2 stored) stored stored).
  - lia.
  - apply block_kernel_contract. lia.
  - reflexivity.
  - reflexivity.
  - exact zero_slot_wf.
Defined.

Lemma compress_overlapped_decompress_witness :
  exists m,
    compress_overlapped 2 (block_kernel 2 stored) false (repeat x07 19)
      (zero_slot 2, zero_slot 2) = Ok m
    /\ decompress_frame stored (stream m)
       = Some (firstn (Z.to_nat (len (repeat x07 19)
                                 - lost_bytes 2 (len (repeat x07 19))))
                 (repeat x07 19)).
Proof.
  apply (@compress_overlapped_decompress 2 (block_kernel 2 stored) stored
           stored false).
  - lia.
  - apply block_kernel_contract. lia.
  - reflexivity.
  - reflexivity.
  - exact zero_slot_wf.
  - exact zero_slot_wf.
Defined.

Lemma roundtrip_exact_iff_witness :
  exists m_hw m_ov,
    compress_hw 2 (block_kernel 2 stored) [x01; x02; x03; x04] (zero_slot 2)
    = Ok m_hw
    /\ compress_overlapped 2 (block_kernel 2 stored) false
         [x01; x02; x03; x04] (zero_slot 2, zero_slot 2) = Ok m_ov
    /\ (decompress_frame stored (stream m_hw) = Some [x01; x02; x03; x04]
        <-> len [x01; x02; x03; x04] mod 2 <> 0
            \/ len [x01; x02; x03; x04] mod BRICK_SIZE 2 = 0)
    /\ (decompress_frame stored (stream m_ov) = Some [x01; x02; x03; x04]
        <-> len [x01; x02; x03; x04] mod 2 <> 0
            \/ len [x01; x02; x03; x04] mod BRICK_SIZE 2 = 0).
Proof.
  apply (@roundtrip_exact_iff 2 (block_kernel 2 stored) stored stored false).
  - lia.
  - apply block_kernel_contract. lia.
  - reflexivity.
  - reflexivity.
  - exact zero_slot_wf.
  - exact zero_slot_wf.
  - exact zero_slot_wf.
Defined.

Lemma compress_hw_bad_buffer_witness :
  compress_hw 2 (block_kernel 2 stored) [x01]
    (Slot (repeat x00 15) (repeat (repeat x00 2) 8) (repeat 0 8)
       (repeat 0 8))
  = if len [x01] =? 0
    then Ok (Machine
               (Slot (repeat x00 15) (repeat (repeat x00 2) 8) (repeat 0 8)
                  (repeat 0 8))
               (LZ4_HEADER ++ END_MARK) [])
    else Err ValueError.
Proof.
  apply (@compress_hw_bad_buffer 2 (block_kernel 2 stored)).
  vm_compute. discriminate.
Defined.

Lemma compress_overlapped_bad_buffer_witness :
  compress_overlapped 2 (block_kernel 2 stored) false []
    (Slot (repeat x00 15) (repeat (repeat x00 2) 8) (repeat 0 8)
       (repeat 0 8), zero_slot 2)
  = Err ValueError.
Proof.
  apply (@compress_overlapped_bad_buffer 2 (block_kernel 2 stored) false).
  vm_compute. discriminate.
Defined.

Lemma compress_overlapped_one_brick_witness :
  exists m,
    compress_overlapped 2 (block_kernel 2 stored) false (repeat x07 16)
      (zero_slot 2, Slot [] [] [] []) = Ok m
    /\ snd (mem m) = snd (zero_slot 2, Slot [] [] [] [])
    /\ Forall (fun e => event_slot e = 0) (trace m)
    /\ stream m =
       LZ4_HEADER
       ++ flat_map record (brick_payloads 2 stored (repeat x07 16))
       ++ END_MARK.
Proof.
  apply (@compress_overlapped_one_brick 2 (block_kernel 2 stored) stored
           false).
  - lia.
  - apply block_kernel_contract. lia.
  - exact zero_slot_wf.
  - vm_compute. discriminate.
Defined.

Lemma compress_overlapped_second_slot_witness :
  compress_overlapped 2 (block_kernel 2 stored) false (repeat x07 17)
    (zero_slot 2, Slot [] [] [] [])
  = Err ValueError.
Proof.
  apply (@compress_overlapped_second_slot 2 (block_kernel 2 stored) false).
  - lia.
  - exact zero_slot_wf.
  - vm_compute. discriminate.
  - vm_compute. reflexivity.
Defined.
